(** * mongoose-fuzzy-searching: n-gram tokenisation and plugin glue

    A shallow embedding of [src/index.js].

    - A JavaScript string is the sequence of its code units, and the code
      units are taken from the range below 256 (Basic Latin and Latin-1): a
      Rocq string of 8-bit characters, one character per code unit.  On that
      range [length] and [slice] count characters and [toLowerCase] maps the
      letters A-Z and the Latin-1 capitals to their small forms, one code
      unit for one.  Text with code units from 256 on is outside the
      embedding.
    - A JavaScript number is an integer [Z].  The options [minSize] and
      [weight] are integers wherever they are present; fractions and NaN are
      outside the embedding.
    - A plain object is the finite map of its own properties; a property
      read that finds no own property goes on to [Object.prototype].
    - A [Set] is the duplicate-free list of its elements in insertion
      order. *)

From Stdlib Require Import ZArith String Ascii List ListSet Lia Bool.
From stdpp Require Import gmap strings.

Set Warnings "-register-all".

Local Open Scope Z_scope.

(** ** JavaScript values and completions *)

Inductive value :=
| VUndefined
| VNull
| VBool (b : bool)
| VNum (n : Z)
| VStr (s : string)
| VArr (l : list value)
| VObj (props : gmap string value)
| VFun (id : nat).

(** Errors thrown by the code: [new Error(msg)] and [new TypeError(msg)]. *)
Inductive exn :=
| Error (msg : string)
| TypeError (msg : string).

(** The outcome of running a function.  [Unmodelled] is not a JavaScript
    outcome: the embedding returns it when a loop exhausts the fuel it was
    given or when the code would need a coercion the embedding does not
    describe (a [minSize] that is neither a number nor absent). *)
Inductive completion (A : Type) :=
| Return (a : A)
| Throw (e : exn)
| Unmodelled.

Arguments Return {A} a.
Arguments Throw {A} e.
Arguments Unmodelled {A}.

Definition bind {A B} (c : completion A) (k : A -> completion B) : completion B :=
  match c with
  | Return a => k a
  | Throw e => Throw e
  | Unmodelled => Unmodelled
  end.

Notation "'let*' x := c 'in' k" := (bind c (fun x => k))
  (at level 10, x name, c at level 100, k at level 200).

(** [arr.map(f)] for an [f] that may throw: elements are visited in order and
    the first exception escapes. *)
Fixpoint mapM {A B} (f : A -> completion B) (l : list A) : completion (list B) :=
  match l with
  | [] => Return []
  | x :: l' => let* y := f x in let* ys := mapM f l' in Return (y :: ys)
  end.

(** [arr.forEach(f)] where [f] updates a state and may throw. *)
Fixpoint forEachM {A S} (f : S -> A -> completion S) (l : list A) (s : S) : completion S :=
  match l with
  | [] => Return s
  | x :: l' => let* s' := f s x in forEachM f l' s'
  end.

(** JavaScript truthiness ([!!v]). *)
Definition truthy (v : value) : bool :=
  match v with
  | VUndefined | VNull => false
  | VBool b => b
  | VNum n => negb (n =? 0)
  | VStr s => negb (String.eqb s "")
  | VArr _ | VObj _ | VFun _ => true
  end.

(** The function [Object], the [constructor] every plain object inherits. *)
Definition ObjectConstructor : value := VFun 0.

(** The properties a plain object inherits from [Object.prototype]: its
    constructor, its methods, and [__proto__], which answers
    [Object.prototype] itself (an object without enumerable keys). *)
Definition inherited (key : string) : option value :=
  if String.eqb key "constructor" then Some ObjectConstructor
  else if String.eqb key "__proto__" then Some (VObj ∅)
  else if existsb (String.eqb key)
            ["toString"; "toLocaleString"; "valueOf"; "hasOwnProperty";
             "isPrototypeOf"; "propertyIsEnumerable"; "__defineGetter__";
             "__defineSetter__"; "__lookupGetter__"; "__lookupSetter__"]%string
       then Some (VFun 1)
  else None.

(** [obj[key]] on a plain object: the own property, else the inherited one,
    else [undefined]. *)
Definition prop (m : gmap string value) (key : string) : value :=
  match m !! key with
  | Some v => v
  | None => default VUndefined (inherited key)
  end.

(** ** Strings *)

Definition strlen (s : string) : Z := Z.of_nat (String.length s).

(** [toLowerCase] on one code unit below 256: A-Z (65-90) and the Latin-1
    capitals (192-222 without the multiplication sign 215) move up by 32. *)
Definition lower_ascii (c : ascii) : ascii :=
  let n := nat_of_ascii c in
  if (((65 <=? n)%nat && (n <=? 90)%nat) ||
      ((192 <=? n)%nat && (n <=? 222)%nat && negb (n =? 215)%nat))%bool
  then ascii_of_nat (n + 32) else c.

Fixpoint toLowerCase (s : string) : string :=
  match s with
  | EmptyString => EmptyString
  | String c s' => String (lower_ascii c) (toLowerCase s')
  end.

(** [String.prototype.slice(from, to)]: negative positions count from the end,
    positions are clamped to the string, an empty range gives [""]. *)
Definition slice (s : string) (from to : Z) : string :=
  let len := strlen s in
  let b := if from <? 0 then Z.max (len + from) 0 else Z.min from len in
  let e := if to <? 0 then Z.max (len + to) 0 else Z.min to len in
  substring (Z.to_nat b) (Z.to_nat (e - b)) s.

(** ** Constants *)

Module constants.
Definition DEFAULT_MIN_SIZE : Z := 2.
Definition DEFAULT_PREFIX_ONLY : bool := false.
End constants.

(** ** nGrams *)

(** [set.add(x)] on an insertion-ordered set. *)
Definition Set_add (x : string) (set : list string) : list string :=
  set_add string_dec x set.

(** The [while] loop of the [prefixOnly] branch (lines 71-74). *)
Fixpoint prefixLoop (fuel : nat) (text : string) (index minSize : Z)
    (set : list string) : option (list string) :=
  match fuel with
  | O => None
  | S fuel' =>
      if minSize <? strlen text + 1 then
        let set := Set_add (slice text index (index + minSize)) set in
        let minSize := minSize + 1 in
        prefixLoop fuel' text index minSize set
      else Some set
  end.

(** The [while] loop of the substring branch (lines 79-86). *)
Fixpoint substringLoop (fuel : nat) (text : string) (minSize index : Z)
    (set : list string) : option (list string) :=
  match fuel with
  | O => None
  | S fuel' =>
      if minSize <=? strlen text + 1 then
        if negb (index =? 0) then
          let index := index - 1 in
          let set := Set_add (slice text index (index + minSize)) set in
          substringLoop fuel' text minSize index set
        else
          let minSize := minSize + 1 in
          let index := strlen text - minSize + 1 in
          substringLoop fuel' text minSize index set
      else Some set
  end.

(** Fuel handed to the loops of [nGrams]; [nGrams_total] shows that it is
    never exhausted. *)
Definition loopFuel (text : string) : nat :=
  Z.to_nat ((strlen text + 2) * (strlen text + 2)).

Definition ofLoop (r : option (list string)) : completion (list string) :=
  match r with
  | Some set => Return set
  | None => Unmodelled
  end.

(** The [return]/[throw] statement through which a call of [nGrams] leaves. *)
Inductive exit :=
| ExitMinSize      (* line 52: throw *)
| ExitEmptyText    (* line 56: return [] *)
| ExitShortText    (* line 63: return [text] *)
| ExitIndexGuard   (* line 67: return [] *)
| ExitPrefix       (* line 76 *)
| ExitSubstring.   (* line 88 *)

(** Line 60: [index = prefixOnly ? 0 : text.length - minSize + 1]. *)
Definition startIndex (text : string) (minSize : Z) (prefixOnly : bool) : Z :=
  if prefixOnly then 0 else strlen text - minSize + 1.

(** [nGrams(text, minSize, prefixOnly)] for a string [text] and an integer
    [minSize]; [minSize = None] stands for [null]/[undefined].  The code does
    not check that [minSize] is an integer: a fraction is outside the
    embedding, and nothing proved here speaks about it.  The result is paired
    with the exit taken. *)
Definition nGrams_run (text : string) (minSize : option Z) (prefixOnly : bool)
    : exit * completion (list string) :=
  let minSize := match minSize with
                 | None => constants.DEFAULT_MIN_SIZE
                 | Some m => m
                 end in
  if minSize <=? 0 then
    (ExitMinSize, Throw (Error "minSize must be greater than 0."))
  else if String.eqb text "" then
    (ExitEmptyText, Return [])
  else
    let text := toLowerCase text in
    let index := startIndex text minSize prefixOnly in
    if strlen text <=? minSize then
      (ExitShortText, Return [text])
    else if (negb prefixOnly && (index <? 1))%bool then
      (ExitIndexGuard, Return [])
    else if prefixOnly then
      (ExitPrefix, ofLoop (prefixLoop (loopFuel text) text index minSize []))
    else
      (ExitSubstring, ofLoop (substringLoop (loopFuel text) text minSize index [])).

Definition nGrams (text : string) (minSize : option Z) (prefixOnly : bool)
    : completion (list string) :=
  snd (nGrams_run text minSize prefixOnly).

Definition nGrams_exit (text : string) (minSize : option Z) (prefixOnly : bool) : exit :=
  fst (nGrams_run text minSize prefixOnly).

(** ** What the specification calls substrings and prefixes *)

(** [t] occurs in [s] as a block of consecutive characters. *)
Definition is_substring (t s : string) : Prop :=
  exists pre post, s = pre +:+ t +:+ post.

(** [s] contains no upper-case letter: what the Normalizer guarantees of the
    words it hands to the generator. *)
Definition lower_case (s : string) : Prop := toLowerCase s = s.

(** ** replaceSymbols and makeNGrams *)

(** The character class of the regular expression on line 128; inside it
    [,-\.] is the range from the comma to the full stop, which adds the
    hyphen.  The double quote is character 34. *)
Definition specialCharacters : list ascii :=
  ascii_of_nat 34 :: list_ascii_of_string "!#%&'()*+,-./:;<=>?@[\]^`{|}~".

(** [text.replace(/[cs]/g, empty)]: every character of [cs] is dropped. *)
Fixpoint removeAll (cs : list ascii) (s : string) : string :=
  match s with
  | EmptyString => EmptyString
  | String c s' =>
      if existsb (Ascii.eqb c) cs then removeAll cs s' else String c (removeAll cs s')
  end.

(** [text.replace(/a/g, b)] for single characters. *)
Fixpoint replaceAll (a b : ascii) (s : string) : string :=
  match s with
  | EmptyString => EmptyString
  | String c s' => String (if Ascii.eqb c a then b else c) (replaceAll a b s')
  end.

Definition replaceSymbols (text : string) (escapeSpecialCharacters : bool) : string :=
  let text := toLowerCase text in
  let text := if escapeSpecialCharacters then removeAll specialCharacters text else text in
  replaceAll "_" " " text.

(** [text.split(sep)] for a one-character separator: the pieces between the
    separators, empty pieces included. *)
Fixpoint split (sep : ascii) (s : string) : list string :=
  match s with
  | EmptyString => [EmptyString]
  | String c s' =>
      if Ascii.eqb c sep then EmptyString :: split sep s'
      else match split sep s' with
           | w :: ws => String c w :: ws
           | [] => [String c EmptyString]
           end
  end.

(** [Array.from(new Set(arr))]: first occurrences, in order. *)
Definition uniq (arr : list string) : list string :=
  fold_left (fun set x => Set_add x set) arr [].

(** [minSize || constants.DEFAULT_MIN_SIZE]. *)
Definition orDefaultMinSize (minSize : option Z) : Z :=
  match minSize with
  | None => constants.DEFAULT_MIN_SIZE
  | Some m => if m =? 0 then constants.DEFAULT_MIN_SIZE else m
  end.

(** [makeNGrams(text, escapeSpecialCharacters, minSize, prefixOnly)].  The text
    is whatever the caller found in a document or query; only strings have a
    [split] method.  [escapeSpecialCharacters] and [prefixOnly] are used for
    their truthiness only and are given as booleans; an absent [minSize] is
    [None]. *)
Definition makeNGrams (text : value) (escapeSpecialCharacters : bool)
    (minSize : option Z) (prefixOnly : bool) : completion (list string) :=
  if negb (truthy text) then Return []
  else
    match text with
    | VStr s =>
        let* result :=
          mapM (fun q =>
                  nGrams (replaceSymbols q escapeSpecialCharacters)
                         (Some (orDefaultMinSize minSize))
                         (prefixOnly || constants.DEFAULT_PREFIX_ONLY))
               (split " " s) in
        Return (uniq (concat result))
    | _ => Throw (TypeError "text.split is not a function")
    end.

(** ** Field specifications *)

(** The [keys] property of a field object, as far as the code tells its
    values apart: absent (or any falsy non-string), a string, an array of
    strings, or some other truthy value. *)
Inductive keysValue :=
| KeysAbsent
| KeysString (k : string)
| KeysArray (ks : list string)
| KeysOther.

Module Field.
(** A non-empty plain object of the [fields] option.  [minSize] and [weight]
    are integers when present; [prefixOnly] is used for its truthiness. *)
Record t := make {
  name : string;
  weight : option Z;
  keys : keysValue;
  minSize : option Z;
  prefixOnly : bool;
  escapeSpecialCharacters : option bool
}.
End Field.

(** An element of the [fields] array: a string, a non-empty plain object, or
    anything else. *)
Inductive item :=
| ItemString (s : string)
| ItemObject (o : Field.t)
| ItemOther.

(** Truthiness of [item.keys]. *)
Definition keysTruthy (k : keysValue) : bool :=
  match k with
  | KeysAbsent => false
  | KeysString s => negb (String.eqb s "")
  | KeysArray _ => true
  | KeysOther => true
  end.

(** [item.keys.forEach(f)]: only an array has [forEach]. *)
Definition keysForEach {S} (k : keysValue) (f : S -> string -> completion S) (s : S)
    : completion S :=
  match k with
  | KeysArray ks => forEachM f ks s
  | _ => Throw (TypeError "item.keys.forEach is not a function")
  end.

Definition fuzzyName (name : string) : string := name +:+ "_fuzzy".

(** [obj[k] = v] on an object whose property order matters. *)
Fixpoint setProperty {V} (k : string) (v : V) (obj : list (string * V)) : list (string * V) :=
  match obj with
  | [] => [(k, v)]
  | (k', v') :: obj' =>
      if String.eqb k k' then (k, v) :: obj' else (k', v') :: setProperty k v obj'
  end.

(** ** The schema *)

(** The two path declarations the plugin adds: [addToSchema] declares
    [{type: [String], default: "", index: false}] and [addArrayToSchema]
    declares [{type: Mixed, default: [], index: false}]. *)
Inductive pathType :=
| StringArrayPath
| MixedPath.

Record indexOptions := {
  weights : list (string * Z);
  language_override : option string
}.

(** [{transform: removeFuzzyElements(fields), getters: true, setters: true}]:
    the transform is recorded by the field list it closes over. *)
Record returnOptions := {
  transform : list item;
  getters : bool;
  setters : bool
}.

(** The bodies of the three [pre] hooks: [createNGrams(this, fields)] and
    [createNGrams(this._update, fields)]. *)
Inductive middleware :=
| IndexDocument (fields : list item)
| IndexUpdate (fields : list item).

(** What the plugin records on a schema through [add], [index], [set], [pre]
    and [statics]. *)
Record Schema := {
  paths : list (string * pathType);
  indexes : list (list (string * string) * indexOptions);
  toObject : option returnOptions;
  toJSON : option returnOptions;
  pre : list (string * middleware);
  statics : list string
}.

Definition emptySchema : Schema :=
  {| paths := []; indexes := []; toObject := None; toJSON := None;
     pre := []; statics := [] |}.

Definition schema_add (name : string) (ty : pathType) (schema : Schema) : Schema :=
  {| paths := setProperty name ty (paths schema); indexes := indexes schema;
     toObject := toObject schema; toJSON := toJSON schema;
     pre := pre schema; statics := statics schema |}.

Definition schema_index (idx : list (string * string)) (options : indexOptions)
    (schema : Schema) : Schema :=
  {| paths := paths schema; indexes := indexes schema ++ [(idx, options)];
     toObject := toObject schema; toJSON := toJSON schema;
     pre := pre schema; statics := statics schema |}.

Definition addToSchema (name : string) : string * pathType :=
  (fuzzyName name, StringArrayPath).

Definition addArrayToSchema (name : string) : string * pathType :=
  (fuzzyName name, MixedPath).

(** The variables [createFields] updates while it walks the fields. *)
Record fieldsState := {
  fs_schema : Schema;
  fs_indexes : list (string * string);
  fs_weights : list (string * Z)
}.

Definition createFields_item (st : fieldsState) (it : item) : completion fieldsState :=
  match it with
  | ItemString s =>
      let (p, ty) := addToSchema s in
      Return {| fs_schema := schema_add p ty (fs_schema st);
                fs_indexes := setProperty (fuzzyName s) "text"%string (fs_indexes st);
                fs_weights := fs_weights st |}
  | ItemObject o =>
      if keysTruthy (Field.keys o) then
        let* idx :=
          keysForEach (Field.keys o)
            (fun idx key =>
               Return (setProperty (fuzzyName (Field.name o) +:+ "." +:+ fuzzyName key)
                                   "text"%string idx))
            (fs_indexes st) in
        let (p, ty) := addArrayToSchema (Field.name o) in
        Return {| fs_schema := schema_add p ty (fs_schema st);
                  fs_indexes := idx;
                  fs_weights := fs_weights st |}
      else
        let (p, ty) := addToSchema (Field.name o) in
        Return {| fs_schema := schema_add p ty (fs_schema st);
                  fs_indexes := setProperty (fuzzyName (Field.name o)) "text"%string
                                            (fs_indexes st);
                  fs_weights :=
                    match Field.weight o with
                    | Some w => if w =? 0 then fs_weights st
                                else setProperty (fuzzyName (Field.name o)) w (fs_weights st)
                    | None => fs_weights st
                    end |}
  | ItemOther => Throw (TypeError "Fields items must be String or Object.")
  end.

(** [createFields(schema, fields, language_override)]; an exception leaves
    the function before [schema.index] is reached. *)
Definition createFields (schema : Schema) (fields : list item)
    (language_override : option string) : completion Schema :=
  let* st := forEachM createFields_item fields
               {| fs_schema := schema; fs_indexes := []; fs_weights := [] |} in
  let options :=
    {| weights := fs_weights st;
       language_override :=
         match language_override with
         | Some l => if String.eqb l "" then None else Some l
         | None => None
         end |} in
  Return (schema_index (fs_indexes st) options (fs_schema st)).

(** ** createNGrams *)

(** An array of tokens as stored in a document. *)
Definition tokensValue (tokens : list string) : value := VArr (map VStr tokens).

(** [data[key]] for an element of a nested array: reading a property of
    [undefined] or [null] throws, a plain object answers from its own
    properties; the built-in properties of other values are not described. *)
Definition getProperty (data : value) (key : string) : completion value :=
  match data with
  | VUndefined | VNull => Throw (TypeError "Cannot read properties of undefined")
  | VObj m => Return (prop m key)
  | _ => Unmodelled
  end.

(** [value.forEach(f)] on a truthy attribute value: only an array has it. *)
Definition valueForEach {S} (v : value) (f : S -> value -> completion S) (s : S)
    : completion S :=
  match v with
  | VArr l => forEachM f l s
  | _ => Throw (TypeError "attributes[item.name].forEach is not a function")
  end.

(** [item.escapeSpecialCharacters !== false]. *)
Definition escapeFlag (o : Field.t) : bool :=
  match Field.escapeSpecialCharacters o with
  | Some false => false
  | _ => true
  end.

(** The body of the [forEach] of [createNGrams] (lines 261-293) for one
    element of [fields]; [attributes] is the object being written, a plain
    object as the update payloads are (a mongoose document inherits further
    members, which are not described). *)
Definition createNGrams_item (attributes : gmap string value) (it : item)
    : completion (gmap string value) :=
  match it with
  | ItemString s =>
      if truthy (prop attributes s) then
        let* tokens := makeNGrams (prop attributes s) false None false in
        Return (<[fuzzyName s := tokensValue tokens]> attributes)
      else Return attributes
  | ItemObject o =>
      let escapeSpecialCharacters := escapeFlag o in
      if (keysTruthy (Field.keys o) && truthy (prop attributes (Field.name o)))%bool then
        let* attrs :=
          valueForEach (prop attributes (Field.name o))
            (fun attrs data =>
               let* obj :=
                 keysForEach (Field.keys o)
                   (fun (obj : gmap string value) key =>
                      let* text := getProperty data key in
                      let* tokens := makeNGrams text escapeSpecialCharacters
                                       (Field.minSize o) (Field.prefixOnly o) in
                      Return (<[fuzzyName key := tokensValue tokens]> obj))
                   ∅ in
               Return (attrs ++ [VObj obj]))
            [] in
        Return (<[fuzzyName (Field.name o) := VArr attrs]> attributes)
      else if truthy (prop attributes (Field.name o)) then
        let* tokens := makeNGrams (prop attributes (Field.name o)) escapeSpecialCharacters
                         (Field.minSize o) (Field.prefixOnly o) in
        Return (<[fuzzyName (Field.name o) := tokensValue tokens]> attributes)
      else Return attributes
  | ItemOther => Return attributes
  end.

Definition createNGrams (attributes : gmap string value) (fields : list item)
    : completion (gmap string value) :=
  forEachM createNGrams_item fields attributes.

(** The attribute a field specification reads, and the one it writes. *)
Definition sourceName (it : item) : option string :=
  match it with
  | ItemString s => Some s
  | ItemObject o => Some (Field.name o)
  | ItemOther => None
  end.

Definition fuzzyKey (it : item) : option string :=
  fuzzyName <$> sourceName it.

(** ** removeFuzzyElements *)

Definition removeFuzzy_item (ret : gmap string value) (it : item) : gmap string value :=
  match it with
  | ItemString s => delete (fuzzyName s) ret
  | ItemObject o => delete (fuzzyName (Field.name o)) ret
  | ItemOther => ret
  end.

(** [removeFuzzyElements(fields)(doc, ret, opt)]: the transform deletes from
    [ret] and returns it; [doc] and [opt] are not used. *)
Definition removeFuzzyElements (fields : list item) (doc : value)
    (ret : gmap string value) (opt : value) : gmap string value :=
  fold_left removeFuzzy_item fields ret.

(** [s] ends with [suffix]. *)
Definition endsWith (s suffix : string) : bool :=
  let n := String.length s in
  let k := String.length suffix in
  ((k <=? n)%nat && String.eqb (substring (n - k) k s) suffix)%bool.

(** ** The plugin *)

(** The [fields] option: absent (or falsy), an array, or something else. *)
Inductive fieldsValue :=
| FieldsAbsent
| FieldsArray (l : list item)
| FieldsOther.

Record pluginOptions := {
  fields : fieldsValue;
  opt_language_override : option string
}.

(** Lines 331-339: a truthy [keys] that is neither an array nor a string is
    refused. *)
Definition checkKeys (it : item) : completion unit :=
  match it with
  | ItemObject o =>
      match Field.keys o with
      | KeysOther => Throw (TypeError "Key must be an array or a string.")
      | _ => Return tt
      end
  | _ => Return tt
  end.

Definition checkFields (l : list item) : completion unit :=
  forEachM (fun _ it => checkKeys it) l tt.

(** [module.exports(schema, options)]; [options = None] is a missing or falsy
    second argument. *)
Definition plugin (schema : Schema) (options : option pluginOptions) : completion Schema :=
  match options with
  | None => Throw (Error "You must set at least one field for fuzzy search.")
  | Some options =>
      match fields options with
      | FieldsAbsent => Throw (Error "You must set at least one field for fuzzy search.")
      | FieldsOther => Throw (TypeError "Fields must be an array.")
      | FieldsArray l =>
          let* _ := checkFields l in
          let* schema := createFields schema l (opt_language_override options) in
          let returnOptions := {| transform := l; getters := true; setters := true |} in
          Return {| paths := paths schema;
                    indexes := indexes schema;
                    toObject := Some returnOptions;
                    toJSON := Some returnOptions;
                    pre := pre schema ++
                           [("save"%string, IndexDocument l);
                            ("update"%string, IndexUpdate l);
                            ("findOneAndUpdate"%string, IndexUpdate l)];
                    statics := statics schema ++ ["fuzzySearch"%string] |}
      end
  end.

(** ** fuzzySearch *)

(** [v === Object]. *)
Definition isObjectConstructor (v : value) : bool :=
  match v with
  | VFun 0 => true
  | _ => false
  end.

(** [isObject(obj)]: truthy, with [obj.constructor === Object] and at least
    one own key.  An object with an own [constructor] property that is not
    [Object] fails the test. *)
Definition isObject (v : value) : bool :=
  match v with
  | VObj m => (isObjectConstructor (prop m "constructor") && (0 <? size m)%nat)%bool
  | _ => false
  end.

Definition isString (v : value) : bool :=
  match v with VStr _ => true | _ => false end.

Definition isFunctionValue (v : value) : bool :=
  match v with VFun _ => true | _ => false end.

(** [args[i]]. *)
Definition arg (args : list value) (i : nat) : value := nth i args VUndefined.

Definition property (v : value) (key : string) : value :=
  match v with
  | VObj m => prop m key
  | _ => VUndefined
  end.

(** The [minSize] a query carries, ready for [makeNGrams]: a falsy value is
    replaced by the default there whatever its type, a number is itself;
    other truthy values would be coerced by the comparisons of [nGrams]. *)
Definition asMinSize (v : value) : completion (option Z) :=
  if negb (truthy v) then Return None
  else match v with
       | VNum n => Return (Some n)
       | _ => Unmodelled
       end.

(** The filter handed to [where]. *)
Inductive searchFilter :=
| TextSearch (query : string)                       (* { $text: { $search: query } } *)
| AndSearch (query : string) (options : value).     (* { $and: [{ $text: ... }, options] } *)

(** The request made to the store: [Model.find] with the text-score
    projection and sort, the callback ([VNull] when there is none), then
    [.where(search)]. *)
Record findRequest := {
  callback : value;
  search : searchFilter
}.

Definition fuzzySearch (args : list value) : completion findRequest :=
  if ((length args =? 0)%nat &&
      (negb (isString (arg args 0)) || negb (isObject (arg args 0))))%bool
  then
    Throw (TypeError
      "Fuzzy Search: First argument is mandatory and must be a string or an object.")
  else
    let queryString :=
      if isObject (arg args 0) then property (arg args 0) "query" else arg args 0 in
    let checkPrefixOnly :=
      if isObject (arg args 0) then truthy (property (arg args 0) "prefixOnly")
      else constants.DEFAULT_PREFIX_ONLY in
    let defaultNgamMinSize :=
      if isObject (arg args 0) then property (arg args 0) "minSize"
      else VNum constants.DEFAULT_MIN_SIZE in
    let* minSize := asMinSize defaultNgamMinSize in
    let* tokens := makeNGrams queryString false minSize checkPrefixOnly in
    let query := String.concat " " tokens in
    let callback1 :=
      if (truthy (arg args 1) && isFunctionValue (arg args 1))%bool
      then arg args 1 else VNull in
    let options :=
      if (truthy (arg args 1) && isFunctionValue (arg args 1))%bool then VNull
      else if (truthy (arg args 1) && isObject (arg args 1))%bool then arg args 1
      else VNull in
    let callback2 :=
      if (negb (truthy callback1) && isFunctionValue (arg args 2))%bool
      then arg args 2 else callback1 in
    let search :=
      if negb (truthy options) then TextSearch query
      else AndSearch query options in
    Return {| callback := callback2; search := search |}.

(** The field object [o] with another [keys] property. *)
Definition withKeys (o : Field.t) (k : keysValue) : Field.t :=
  Field.make (Field.name o) (Field.weight o) k (Field.minSize o)
             (Field.prefixOnly o) (Field.escapeSpecialCharacters o).

(** ** parseArguments *)

(** The object [{ options, callback }] returned by [parseArguments]. *)
Record parsedArguments := {
  pa_options : value;
  pa_callback : value
}.

(** [isFunction(fn)]. *)
Definition isFunction (fn : value) : bool :=
  (truthy fn && isFunctionValue fn)%bool.

(** [parseArguments(args, i1, i2)] (lines 19-34): [options] starts as the
    empty object and [callback] as [null]. *)
Definition parseArguments (args : list value) (i1 i2 : nat) : parsedArguments :=
  let callback :=
    if (truthy (arg args i1) && isFunction (arg args i1))%bool then arg args i1 else VNull in
  let options :=
    if (truthy (arg args i1) && isFunction (arg args i1))%bool then VObj ∅
    else if (truthy (arg args i1) && isObject (arg args i1))%bool then arg args i1
    else VObj ∅ in
  let callback :=
    if (negb (truthy callback) && isFunctionValue (arg args i2))%bool
    then arg args i2 else callback in
  {| pa_options := options; pa_callback := callback |}.

(** ** Vocabulary of the statements *)

(** [t] is an initial block of [s]. *)
Definition is_prefix (t s : string) : Prop :=
  exists post, s = t +:+ post.

(** The tokens [nGrams] produces for [text] with a positive [minSize]: blocks
    of the lower-cased text that are at least [minSize] long, or the whole
    text when it is shorter than that; initial blocks only in prefix mode. *)
Definition is_token (text : string) (minSize : Z) (prefixOnly : bool) (t : string) : Prop :=
  text <> EmptyString /\
  is_substring t (toLowerCase text) /\
  Z.min minSize (strlen text) <= strlen t /\
  (prefixOnly = true -> is_prefix t (toLowerCase text)).

(** The characters of a string. *)
Definition chars (s : string) : list ascii := list_ascii_of_string s.

(** The search string of a filter. *)
Definition searchText (f : searchFilter) : string :=
  match f with
  | TextSearch query => query
  | AndSearch query _ => query
  end.

(** The field specifications the plugin can build a schema from: strings, and
    objects whose [keys] is absent, an array, or the empty string. *)
Definition acceptedItem (it : item) : bool :=
  match it with
  | ItemString _ => true
  | ItemObject o =>
      match Field.keys o with
      | KeysAbsent => true
      | KeysString k => String.eqb k ""
      | KeysArray _ => true
      | KeysOther => false
      end
  | ItemOther => false
  end.

(** The callback and the filter a call of [fuzzySearch] ends up with, read
    off its second and third arguments: a function in second place is the
    callback, otherwise a function in third place is; a non-empty plain
    object in second place is the extra filter. *)
Definition callbackOf (a1 a2 : value) : value :=
  if isFunctionValue a1 then a1 else if isFunctionValue a2 then a2 else VNull.

Definition filterOf (query : string) (a1 : value) : searchFilter :=
  if isObject a1 then AndSearch query a1 else TextSearch query.

(** The keys of the text index a field specification asks for: the fuzzy
    attribute itself, or one dotted path per key of a nested specification. *)
Definition indexKeys (it : item) : list string :=
  match it with
  | ItemString s => [fuzzyName s]
  | ItemObject o =>
      if keysTruthy (Field.keys o) then
        match Field.keys o with
        | KeysArray ks =>
            map (fun key => fuzzyName (Field.name o) +:+ "." +:+ fuzzyName key) ks
        | _ => []
        end
      else [fuzzyName (Field.name o)]
  | ItemOther => []
  end.
(** * Proofs *)

(** ** Strings *)

Section StringFacts.

Lemma app_String c (s t : string) : String c s +:+ t = String c (s +:+ t).
Proof. reflexivity. Qed.

Lemma app_empty_l (t : string) : "" +:+ t = t.
Proof. reflexivity. Qed.

Lemma app_empty_r (s : string) : s +:+ "" = s.
Proof. induction s as [|c s IH]; [reflexivity|]. now rewrite app_String, IH. Qed.

Lemma length_app (s t : string) :
  String.length (s +:+ t) = (String.length s + String.length t)%nat.
Proof.
  induction s as [|c s IH]; [reflexivity|].
  rewrite app_String. simpl. now rewrite IH.
Qed.

Lemma strlen_app (s t : string) : strlen (s +:+ t) = strlen s + strlen t.
Proof. unfold strlen. rewrite length_app. lia. Qed.

Lemma strlen_nonneg (s : string) : 0 <= strlen s.
Proof. unfold strlen. lia. Qed.

Lemma strlen_zero (s : string) : strlen s = 0 -> s = ""%string.
Proof. destruct s; [reflexivity|]. unfold strlen. simpl. lia. Qed.

Lemma length_toLowerCase (s : string) :
  String.length (toLowerCase s) = String.length s.
Proof. induction s as [|c s IH]; simpl; congruence. Qed.

Lemma strlen_toLowerCase (s : string) : strlen (toLowerCase s) = strlen s.
Proof. unfold strlen. now rewrite length_toLowerCase. Qed.

Lemma eqb_empty_false (s : string) : s <> ""%string -> String.eqb s "" = false.
Proof. intros H. now apply String.eqb_neq. Qed.

(** A block cut out of [s] by position and length sits between a prefix of
    that position's length and a suffix. *)
Lemma substring_split (s : string) (n m : nat) :
  (n + m <= String.length s)%nat ->
  exists pre post,
    s = pre +:+ substring n m s +:+ post /\
    String.length pre = n /\ String.length (substring n m s) = m.
Proof.
  revert n m. induction s as [|c s IH]; intros n m Hle; simpl in Hle.
  - assert (n = 0%nat) by lia. assert (m = 0%nat) by lia. subst.
    exists ""%string, ""%string. auto.
  - destruct n as [|n].
    + destruct m as [|m].
      * exists ""%string, (String c s). auto.
      * destruct (IH 0%nat m) as (pre & post & Hs & Hpre & Hlen); [lia|].
        destruct pre; [|discriminate].
        exists ""%string, post. simpl. rewrite app_empty_l in *.
        rewrite app_String. split; [congruence|]. split; [reflexivity|].
        simpl. congruence.
    + destruct (IH n m) as (pre & post & Hs & Hpre & Hlen); [lia|].
      exists (String c pre), post. simpl. rewrite app_String.
      split; [congruence|]. split; [congruence|assumption].
Qed.

(** Conversely the block between a prefix and a suffix is the one cut out at
    the prefix's length. *)
Lemma substring_middle (pre t post : string) :
  substring (String.length pre) (String.length t) (pre +:+ t +:+ post) = t.
Proof.
  induction pre as [|c pre IH].
  - rewrite app_empty_l. simpl String.length at 1.
    induction t as [|d t IHt].
    + rewrite app_empty_l. destruct post; reflexivity.
    + rewrite app_String. simpl. now rewrite IHt.
  - rewrite app_String. simpl. exact IH.
Qed.

(** [slice] on positions inside the string. *)
Lemma slice_inside (s : string) (i j : Z) :
  0 <= i -> i <= j -> j <= strlen s ->
  slice s i j = substring (Z.to_nat i) (Z.to_nat (j - i)) s.
Proof.
  intros Hi Hij Hj. unfold slice.
  destruct (Z.ltb_spec i 0); [lia|]. destruct (Z.ltb_spec j 0); [lia|].
  rewrite !Z.min_l by lia. reflexivity.
Qed.

(** The substrings of [s] of length [L] are the slices [s.slice(i, i + L)]
    that fit into [s]. *)
Lemma is_substring_slice (t s : string) (L : Z) :
  (exists i, 0 <= i /\ i <= strlen s - L /\ 0 <= L /\ t = slice s i (i + L))
  <-> is_substring t s /\ strlen t = L.
Proof.
  split.
  - intros (i & Hi & HiL & HL & ->). rewrite slice_inside by lia.
    destruct (substring_split s (Z.to_nat i) (Z.to_nat (i + L - i)))
      as (pre & post & Hs & Hpre & Hlen); [unfold strlen in *; lia|].
    split; [exists pre, post; exact Hs|]. unfold strlen. rewrite Hlen. lia.
  - intros [(pre & post & ->) <-]. exists (strlen pre).
    rewrite !strlen_app.
    pose proof (strlen_nonneg pre). pose proof (strlen_nonneg t).
    pose proof (strlen_nonneg post).
    repeat split; try lia.
    rewrite slice_inside by (rewrite ?strlen_app; lia).
    replace (Z.to_nat (strlen pre)) with (String.length pre)
      by (unfold strlen; lia).
    replace (Z.to_nat (strlen pre + strlen t - strlen pre)) with (String.length t)
      by (unfold strlen; lia).
    now rewrite substring_middle.
Qed.

(** A substring as long as the whole string is the whole string. *)
Lemma is_substring_full (t s : string) :
  is_substring t s -> strlen s <= strlen t -> t = s.
Proof.
  intros (pre & post & ->) Hlen. rewrite !strlen_app in Hlen.
  pose proof (strlen_nonneg pre). pose proof (strlen_nonneg post).
  rewrite (strlen_zero pre), (strlen_zero post) by lia.
  now rewrite app_empty_l, app_empty_r.
Qed.

Lemma is_substring_refl (s : string) : is_substring s s.
Proof. exists ""%string, ""%string. now rewrite app_empty_l, app_empty_r. Qed.

Lemma is_substring_length (t s : string) : is_substring t s -> strlen t <= strlen s.
Proof.
  intros (pre & post & ->). rewrite !strlen_app.
  pose proof (strlen_nonneg pre). pose proof (strlen_nonneg post). lia.
Qed.

End StringFacts.

(** ** The loops of nGrams *)

Section Loops.

Variable text : string.

Lemma Set_add_In (x y : string) (set : list string) :
  In y (Set_add x set) <-> y = x \/ In y set.
Proof. unfold Set_add. apply set_add_iff. Qed.

Lemma Set_add_NoDup (x : string) (set : list string) :
  List.NoDup set -> List.NoDup (Set_add x set).
Proof. unfold Set_add. apply set_add_nodup. Qed.

(** The prefix loop, entered with [index = 0], adds the slices
    [text.slice(0, L)] for every [L] from [minSize] to the length. *)
Lemma prefixLoop_spec (fuel : nat) :
  forall (minSize : Z) (set : list string),
    strlen text + 1 - minSize < Z.of_nat fuel -> (0 < fuel)%nat ->
    List.NoDup set ->
    exists l, prefixLoop fuel text 0 minSize set = Some l /\ List.NoDup l /\
      forall t, In t l <->
        In t set \/ exists L, minSize <= L <= strlen text /\ t = slice text 0 L.
Proof.
  induction fuel as [|fuel IH]; intros minSize set Hfuel Hpos Hnd; [lia|].
  simpl. destruct (Z.ltb_spec minSize (strlen text + 1)) as [Hlt|Hge].
  - destruct (IH (minSize + 1) (Set_add (slice text 0 (0 + minSize)) set))
      as (l & Hl & Hndl & Hin); [lia|lia|now apply Set_add_NoDup|].
    exists l. split; [exact Hl|]. split; [exact Hndl|].
    intros t. rewrite Hin, Set_add_In. rewrite Z.add_0_l. split.
    + intros [[->|H]|(L & HL & ->)]; eauto.
      * right. exists minSize. split; [lia|reflexivity].
      * right. exists L. split; [lia|reflexivity].
    + intros [H|(L & HL & ->)]; [auto|].
      destruct (Z.eq_dec L minSize) as [->|Hne]; [auto|].
      right. exists L. split; [lia|reflexivity].
  - exists set. split; [reflexivity|]. split; [exact Hnd|].
    intros t. split; [auto|]. intros [H|(L & HL & _)]; [exact H|lia].
Qed.

(** The substring loop from the state [(minSize, index, set)]: the slices of
    length [minSize] at the positions below [index] are added, then every
    slice of a greater length that fits into the text. *)
Lemma substringLoop_spec (fuel : nat) :
  forall (minSize index : Z) (set : list string),
    1 <= minSize ->
    (0 <= index <= strlen text - minSize + 1 \/
     (strlen text + 1 < minSize /\ index <= 0)) ->
    index + (strlen text + 2 - minSize) * (strlen text + 2) < Z.of_nat fuel ->
    (0 < fuel)%nat ->
    List.NoDup set ->
    exists l, substringLoop fuel text minSize index set = Some l /\ List.NoDup l /\
      forall t, In t l <->
        In t set \/
        (exists i, 0 <= i < index /\ t = slice text i (i + minSize)) \/
        (exists L i, minSize < L <= strlen text /\ 0 <= i <= strlen text - L /\
                     t = slice text i (i + L)).
Proof.
  induction fuel as [|fuel IH]; intros minSize index set Hm Hinv Hfuel Hpos Hnd; [lia|].
  pose proof (strlen_nonneg text) as Hlen.
  simpl. destruct (Z.leb_spec minSize (strlen text + 1)) as [Hle|Hgt].
  - destruct Hinv as [Hidx|?]; [|lia].
    destruct (Z.eqb_spec index 0) as [->|Hnz]; simpl.
    + (* index = 0: next length *)
      destruct (IH (minSize + 1) (strlen text - (minSize + 1) + 1) set)
        as (l & Hl & Hndl & Hin); [lia|lia|nia|nia|exact Hnd|].
      exists l. split; [exact Hl|]. split; [exact Hndl|].
      intros t. rewrite Hin. split.
      * intros [H|[(i & Hi & ->)|(L & i & HL & Hi & ->)]]; [auto| |].
        -- right. right. exists (minSize + 1), i. split; [lia|]. split; [lia|reflexivity].
        -- right. right. exists L, i. split; [lia|]. split; [lia|reflexivity].
      * intros [H|[(i & Hi & _)|(L & i & HL & Hi & ->)]]; [auto|lia|].
        destruct (Z.eq_dec L (minSize + 1)) as [->|Hne].
        -- right. left. exists i. split; [lia|reflexivity].
        -- right. right. exists L, i. split; [lia|]. split; [lia|reflexivity].
    + (* index <> 0: one more slice of this length *)
      destruct (IH minSize (index - 1)
                  (Set_add (slice text (index - 1) (index - 1 + minSize)) set))
        as (l & Hl & Hndl & Hin); [lia|lia|nia|nia|now apply Set_add_NoDup|].
      exists l. split; [exact Hl|]. split; [exact Hndl|].
      intros t. rewrite Hin, Set_add_In. split.
      * intros [[->|H]|[(i & Hi & ->)|H]]; [|auto| |auto].
        -- right. left. exists (index - 1). split; [lia|reflexivity].
        -- right. left. exists i. split; [lia|reflexivity].
      * intros [H|[(i & Hi & ->)|H]]; [auto| |auto].
        destruct (Z.eq_dec i (index - 1)) as [->|Hne]; [auto|].
        right. left. exists i. split; [lia|reflexivity].
  - exists set. split; [reflexivity|]. split; [exact Hnd|].
    intros t. split; [auto|].
    intros [H|[(i & Hi & _)|(L & i & HL & _)]]; [exact H| |lia].
    destruct Hinv; lia.
Qed.

End Loops.

(** ** nGrams *)

Section NGrams.

Lemma loopFuel_pos (text : string) : (0 < loopFuel text)%nat.
Proof. unfold loopFuel. pose proof (strlen_nonneg text). nia. Qed.

Lemma loopFuel_val (text : string) :
  Z.of_nat (loopFuel text) = (strlen text + 2) * (strlen text + 2).
Proof. unfold loopFuel. pose proof (strlen_nonneg text). nia. Qed.

(** Past the guards a call in prefix mode is the prefix loop. *)
Lemma nGrams_run_prefix (text : string) (minSize : Z) :
  1 <= minSize -> minSize < strlen text ->
  nGrams_run text (Some minSize) true =
  (ExitPrefix,
   ofLoop (prefixLoop (loopFuel (toLowerCase text)) (toLowerCase text) 0 minSize [])).
Proof.
  intros Hm Hlen. unfold nGrams_run.
  destruct (Z.leb_spec minSize 0); [lia|].
  destruct (String.eqb_spec text ""); [subst; unfold strlen in *; simpl in *; lia|].
  rewrite strlen_toLowerCase.
  destruct (Z.leb_spec (strlen text) minSize); [lia|]. reflexivity.
Qed.

(** Past the guards a call in substring mode is the substring loop. *)
Lemma nGrams_run_substring (text : string) (minSize : Z) :
  1 <= minSize -> minSize < strlen text ->
  nGrams_run text (Some minSize) false =
  (ExitSubstring,
   ofLoop (substringLoop (loopFuel (toLowerCase text)) (toLowerCase text) minSize
             (strlen text - minSize + 1) [])).
Proof.
  intros Hm Hlen. unfold nGrams_run, startIndex.
  destruct (Z.leb_spec minSize 0); [lia|].
  destruct (String.eqb_spec text ""); [subst; unfold strlen in *; simpl in *; lia|].
  rewrite strlen_toLowerCase.
  destruct (Z.leb_spec (strlen text) minSize); [lia|].
  destruct (Z.ltb_spec (strlen text - minSize + 1) 1); [lia|]. reflexivity.
Qed.

(** A text no longer than [minSize] is returned whole, lower-cased. *)
Lemma nGrams_run_short (text : string) (minSize : Z) (prefixOnly : bool) :
  text <> ""%string -> 1 <= minSize -> strlen text <= minSize ->
  nGrams_run text (Some minSize) prefixOnly = (ExitShortText, Return [toLowerCase text]).
Proof.
  intros Hne Hm Hlen. unfold nGrams_run.
  destruct (Z.leb_spec minSize 0); [lia|].
  rewrite eqb_empty_false by assumption. rewrite strlen_toLowerCase.
  destruct (Z.leb_spec (strlen text) minSize); [reflexivity|lia].
Qed.

Lemma prefix_result (text : string) (minSize : Z) :
  1 <= minSize -> minSize < strlen text ->
  exists l, nGrams text (Some minSize) true = Return l /\ List.NoDup l /\
    forall t, In t l <->
      exists L, minSize <= L <= strlen text /\ t = slice (toLowerCase text) 0 L.
Proof.
  intros Hm Hlen. unfold nGrams. rewrite nGrams_run_prefix by assumption.
  destruct (prefixLoop_spec (toLowerCase text) (loopFuel (toLowerCase text)) minSize [])
    as (l & Hl & Hnd & Hin).
  - rewrite loopFuel_val, strlen_toLowerCase. nia.
  - apply loopFuel_pos.
  - constructor.
  - exists l. simpl. rewrite Hl. split; [reflexivity|]. split; [exact Hnd|].
    intros t. rewrite Hin, strlen_toLowerCase. simpl. tauto.
Qed.

Lemma substring_result (text : string) (minSize : Z) :
  1 <= minSize -> minSize < strlen text ->
  exists l, nGrams text (Some minSize) false = Return l /\ List.NoDup l /\
    forall t, In t l <->
      is_substring t (toLowerCase text) /\ minSize <= strlen t <= strlen text.
Proof.
  intros Hm Hlen. unfold nGrams. rewrite nGrams_run_substring by assumption.
  set (low := toLowerCase text).
  assert (Hlow : strlen low = strlen text) by apply strlen_toLowerCase.
  destruct (substringLoop_spec low (loopFuel low) minSize (strlen text - minSize + 1) [])
    as (l & Hl & Hnd & Hin).
  - exact Hm.
  - left. lia.
  - rewrite loopFuel_val, Hlow. nia.
  - apply loopFuel_pos.
  - constructor.
  - exists l. simpl. rewrite Hl. split; [reflexivity|]. split; [exact Hnd|].
    intros t. rewrite Hin. simpl. split.
    + intros [[]|[(i & Hi & ->)|(L & i & HL & Hi & ->)]].
      * assert (H : is_substring (slice low i (i + minSize)) low /\
                    strlen (slice low i (i + minSize)) = minSize).
        { apply is_substring_slice. exists i. repeat split; try lia; reflexivity. }
        destruct H as [H1 H2]. rewrite H2. split; [exact H1|lia].
      * assert (H : is_substring (slice low i (i + L)) low /\
                    strlen (slice low i (i + L)) = L).
        { apply is_substring_slice. exists i. repeat split; try lia; reflexivity. }
        destruct H as [H1 H2]. rewrite H2. split; [exact H1|lia].
    + intros [Hsub Hbound].
      destruct (proj2 (is_substring_slice t low (strlen t)) (conj Hsub eq_refl))
        as (i & Hi0 & Hi1 & _ & Ht).
      right. destruct (Z.eq_dec (strlen t) minSize) as [Heq|Hne].
      * left. exists i. rewrite <- Heq. split; [lia|exact Ht].
      * right. exists (strlen t), i. split; [lia|]. split; [lia|exact Ht].
Qed.

(** The fuel of the loops is never exhausted and nothing else is left
    undescribed: every call of [nGrams] returns or throws. *)
Lemma nGrams_total (text : string) (minSize : option Z) (prefixOnly : bool) :
  nGrams text minSize prefixOnly <> Unmodelled.
Proof.
  set (m := match minSize with None => constants.DEFAULT_MIN_SIZE | Some m => m end).
  assert (Hm : nGrams text minSize prefixOnly = nGrams text (Some m) prefixOnly)
    by (destruct minSize; reflexivity).
  rewrite Hm. clear Hm.
  destruct (Z.leb_spec m 0) as [Hle|Hpos].
  { unfold nGrams, nGrams_run. destruct (Z.leb_spec m 0); [discriminate|lia]. }
  destruct (String.eqb_spec text "") as [->|Hne].
  { unfold nGrams, nGrams_run. destruct (Z.leb_spec m 0); [discriminate|].
    simpl. discriminate. }
  destruct (Z.leb_spec (strlen text) m) as [Hshort|Hlong].
  { unfold nGrams. rewrite nGrams_run_short by (assumption || lia). discriminate. }
  destruct prefixOnly.
  - destruct (prefix_result text m) as (l & -> & _); [lia|lia|discriminate].
  - destruct (substring_result text m) as (l & -> & _); [lia|lia|discriminate].
Qed.

End NGrams.

(** ** Normalisation *)

Section Normalisation.

Lemma lower_ascii_idem (c : ascii) : lower_ascii (lower_ascii c) = lower_ascii c.
Proof. destruct c as [[] [] [] [] [] [] [] []]; reflexivity. Qed.

Lemma lower_ascii_underscore (c : ascii) :
  lower_ascii c = c ->
  lower_ascii (if Ascii.eqb c "_" then " "%char else c) =
  (if Ascii.eqb c "_" then " "%char else c).
Proof. destruct (Ascii.eqb_spec c "_"); [reflexivity|auto]. Qed.

Lemma lower_case_toLowerCase (s : string) : lower_case (toLowerCase s).
Proof.
  unfold lower_case. induction s as [|c s IH]; [reflexivity|].
  simpl. now rewrite lower_ascii_idem, IH.
Qed.

Lemma lower_case_removeAll (cs : list ascii) (s : string) :
  lower_case s -> lower_case (removeAll cs s).
Proof.
  unfold lower_case. induction s as [|c s IH]; [reflexivity|].
  simpl. intros H. injection H as Hc Hs.
  destruct (existsb (Ascii.eqb c) cs); [auto|].
  simpl. now rewrite Hc, IH.
Qed.

Lemma lower_case_replaceAll_underscore (s : string) :
  lower_case s -> lower_case (replaceAll "_" " " s).
Proof.
  unfold lower_case. induction s as [|c s IH]; [reflexivity|].
  simpl. intros H. injection H as Hc Hs.
  now rewrite lower_ascii_underscore, IH.
Qed.

(** Every word the tokenizer hands to [nGrams] is in lower case. *)
Lemma replaceSymbols_lower_case (text : string) (escapeSpecialCharacters : bool) :
  lower_case (replaceSymbols text escapeSpecialCharacters).
Proof.
  unfold replaceSymbols. apply lower_case_replaceAll_underscore.
  destruct escapeSpecialCharacters.
  - apply lower_case_removeAll, lower_case_toLowerCase.
  - apply lower_case_toLowerCase.
Qed.

End Normalisation.

(** ** Claims about nGrams *)

(** C1: for every non-empty text, normalized as the generator receives it
    (in lower case), and every integer minSize in [1, length(text)], nGrams
    in substring mode returns exactly the set of the contiguous substrings of
    text whose length lies in [minSize, length(text)]: every member is such a
    substring, every such substring is a member, and no member is
    repeated. *)
Theorem nGrams_substring_mode (text : string) (minSize : Z) :
  text <> ""%string -> lower_case text -> 1 <= minSize <= strlen text ->
  exists l, nGrams text (Some minSize) false = Return l /\ List.NoDup l /\
    forall t, In t l <->
      is_substring t text /\ minSize <= strlen t <= strlen text.
Proof.
  intros Hne Hlow [Hm Hlen]. unfold lower_case in Hlow.
  destruct (Z.eq_dec minSize (strlen text)) as [->|Hlt].
  - exists [text]. unfold nGrams.
    rewrite nGrams_run_short by (assumption || lia). rewrite Hlow.
    split; [reflexivity|]. split; [repeat constructor; simpl; tauto|].
    intros t. simpl. split.
    + intros [<-|[]]. split; [apply is_substring_refl|lia].
    + intros [Hsub Hbound]. left. symmetry. apply is_substring_full; [exact Hsub|lia].
  - destruct (substring_result text minSize) as (l & Hl & Hnd & Hin); [lia|lia|].
    rewrite Hlow in Hin. exists l. auto.
Qed.

Lemma nGrams_substring_mode_witness :
  exists l, nGrams "hello" (Some 2) false = Return l /\ List.NoDup l /\
    forall t, In t l <->
      is_substring t "hello" /\ 2 <= strlen t <= strlen "hello".
Proof.
  apply (nGrams_substring_mode "hello" 2); [discriminate|reflexivity|].
  unfold strlen; simpl; lia.
Defined.

(** C2: for every text, normalized as the generator receives it (in lower
    case), that is longer than minSize, and every integer minSize >= 1,
    nGrams in prefix mode returns exactly the set of the prefixes text[0:L],
    one for every length L from minSize to the length of the text, and
    nothing else. *)
Theorem nGrams_prefix_mode (text : string) (minSize : Z) :
  lower_case text -> 1 <= minSize -> minSize < strlen text ->
  exists l, nGrams text (Some minSize) true = Return l /\ List.NoDup l /\
    forall t, In t l <->
      exists L, minSize <= L <= strlen text /\ t = slice text 0 L.
Proof.
  intros Hlow Hm Hlen. unfold lower_case in Hlow.
  destruct (prefix_result text minSize) as (l & Hl & Hnd & Hin); [lia|lia|].
  rewrite Hlow in Hin. exists l. auto.
Qed.

Lemma nGrams_prefix_mode_witness :
  exists l, nGrams "hello" (Some 3) true = Return l /\ List.NoDup l /\
    forall t, In t l <->
      exists L, 3 <= L <= strlen "hello" /\ t = slice "hello" 0 L.
Proof.
  apply (nGrams_prefix_mode "hello" 3); [reflexivity|lia|]. unfold strlen; simpl; lia.
Defined.

(** C5: for every text, the empty string included, and every integer
    minSize <= 0, nGrams throws its minSize error; it leaves through the
    minSize check, before the text is looked at. *)
Theorem nGrams_minSize_not_positive (text : string) (minSize : Z) (prefixOnly : bool) :
  minSize <= 0 ->
  nGrams text (Some minSize) prefixOnly = Throw (Error "minSize must be greater than 0.") /\
  nGrams_exit text (Some minSize) prefixOnly = ExitMinSize.
Proof.
  intros Hm. unfold nGrams, nGrams_exit, nGrams_run.
  destruct (Z.leb_spec minSize 0); [split; reflexivity|lia].
Qed.

Lemma nGrams_minSize_not_positive_witness :
  nGrams "" (Some (-3)) true = Throw (Error "minSize must be greater than 0.") /\
  nGrams_exit "" (Some (-3)) true = ExitMinSize.
Proof. apply (nGrams_minSize_not_positive "" (-3) true). lia. Defined.

(** C6: for every non-empty normalized (lower-case) text and every integer
    minSize >= 1 with length(text) <= minSize, nGrams returns exactly the
    one-element set holding the text, in substring mode and in prefix mode. *)
Theorem nGrams_short_text (text : string) (minSize : Z) (prefixOnly : bool) :
  text <> ""%string -> lower_case text -> 1 <= minSize -> strlen text <= minSize ->
  nGrams text (Some minSize) prefixOnly = Return [text].
Proof.
  intros Hne Hlow Hm Hlen. unfold nGrams.
  rewrite nGrams_run_short by assumption. simpl. now rewrite Hlow.
Qed.

Lemma nGrams_short_text_witness :
  nGrams "ab" (Some 3) false = Return ["ab"%string] /\
  nGrams "ab" (Some 2) true = Return ["ab"%string].
Proof.
  split.
  - apply (nGrams_short_text "ab" 3 false);
      [discriminate|reflexivity|lia|unfold strlen; simpl; lia].
  - apply (nGrams_short_text "ab" 2 true);
      [discriminate|reflexivity|lia|unfold strlen; simpl; lia].
Defined.

(** C9: the early return guarded by [!prefixOnly && index < 1] is dead code.
    No call of nGrams leaves through it; in particular, for a non-empty text
    and minSize >= 1, when prefixOnly is false and the text is longer than
    minSize, the index computed on line 60 is at least 1. *)
Theorem nGrams_index_guard_unreachable (text : string) (minSize : Z) :
  (forall (m : option Z) (prefixOnly : bool),
     nGrams_exit text m prefixOnly <> ExitIndexGuard) /\
  (text <> ""%string -> 1 <= minSize -> minSize < strlen (toLowerCase text) ->
   1 <= startIndex (toLowerCase text) minSize false /\
   nGrams_exit text (Some minSize) false = ExitSubstring).
Proof.
  split.
  - intros m prefixOnly. unfold nGrams_exit, nGrams_run, startIndex.
    set (ms := match m with None => constants.DEFAULT_MIN_SIZE | Some m0 => m0 end).
    destruct (Z.leb_spec ms 0); [discriminate|].
    destruct (String.eqb text ""); [discriminate|].
    destruct (Z.leb_spec (strlen (toLowerCase text)) ms); [discriminate|].
    destruct prefixOnly; simpl; [discriminate|].
    destruct (Z.ltb_spec (strlen (toLowerCase text) - ms + 1) 1); [lia|discriminate].
  - intros Hne Hm Hlen. split; [unfold startIndex; lia|].
    unfold nGrams_exit. rewrite strlen_toLowerCase in Hlen.
    now rewrite nGrams_run_substring.
Qed.

Lemma nGrams_index_guard_unreachable_witness :
  1 <= startIndex (toLowerCase "hello") 2 false /\
  nGrams_exit "hello" (Some 2) false = ExitSubstring.
Proof.
  apply (nGrams_index_guard_unreachable "hello" 2);
    [discriminate|lia|unfold strlen; simpl; lia].
Defined.

(** ** Iteration *)

Section Iteration.

Context {A S : Type}.
Variable f : S -> A -> completion S.


(** An element on which the body always throws makes the whole iteration
    throw, there or earlier. *)
Lemma forEachM_throws (l : list A) (x : A) :
  (forall s y, In y l -> f s y <> Unmodelled) ->
  In x l -> (forall s, exists e, f s x = Throw e) ->
  forall s, exists e, forEachM f l s = Throw e.
Proof.
  induction l as [|y l IH]; intros Hmod Hin Hthrow s; [destruct Hin|].
  simpl. destruct Hin as [->|Hin].
  - destruct (Hthrow s) as [e ->]. simpl. eauto.
  - destruct (f s y) as [s'|e|] eqn:Hy; simpl.
    + apply IH; auto. intros s0 y0 Hy0. apply Hmod. now right.
    + eauto.
    + exfalso. eapply Hmod; [left; reflexivity|exact Hy].
Qed.

Lemma forEachM_returns (l : list A) :
  (forall s y, In y l -> exists s', f s y = Return s') ->
  forall s, exists s', forEachM f l s = Return s'.
Proof.
  induction l as [|y l IH]; intros Hret s; simpl; [eauto|].
  destruct (Hret s y) as [s' ->]; [now left|]. simpl.
  apply IH. intros s0 y0 Hy0. apply Hret. now right.
Qed.

End Iteration.

Lemma mapM_returns {A B} (f : A -> completion B) (l : list A) :
  (forall x, exists y, f x = Return y) -> exists ys, mapM f l = Return ys.
Proof.
  intros Hf. induction l as [|x l [ys IH]]; simpl; [eauto|].
  destruct (Hf x) as [y ->]. simpl. rewrite IH. simpl. eauto.
Qed.

(** ** makeNGrams *)

Lemma nGrams_returns (text : string) (minSize : Z) (prefixOnly : bool) :
  1 <= minSize -> exists l, nGrams text (Some minSize) prefixOnly = Return l.
Proof.
  intros Hm. destruct (String.eqb_spec text "") as [->|Hne].
  { unfold nGrams, nGrams_run. destruct (Z.leb_spec minSize 0); [lia|]. simpl. eauto. }
  destruct (Z.leb_spec (strlen text) minSize) as [Hshort|Hlong].
  { unfold nGrams. rewrite nGrams_run_short by assumption. simpl. eauto. }
  destruct prefixOnly.
  - destruct (prefix_result text minSize) as (l & Hl & _); eauto.
  - destruct (substring_result text minSize) as (l & Hl & _); eauto.
Qed.

Lemma split_nonempty (sep : ascii) (s : string) :
  exists w ws, split sep s = w :: ws.
Proof.
  induction s as [|c s (w & ws & IH)]; simpl; [eauto|].
  destruct (Ascii.eqb c sep); [eauto|]. rewrite IH. eauto.
Qed.

(** The title fixture: the tokens of "Hello" with the default minimum size. *)
Example makeNGrams_hello :
  makeNGrams (VStr "Hello") false None false =
  Return ["lo"; "ll"; "el"; "he"; "llo"; "ell"; "hel"; "ello"; "hell"; "hello"]%string.
Proof. reflexivity. Qed.

(** The underscore is replaced after the text is split, so the word keeps
    the space it becomes. *)
Example makeNGrams_underscore :
  makeNGrams (VStr "a_B") true (Some 2) true = Return ["a "; "a b"]%string.
Proof. reflexivity. Qed.

(** C10: makeNGrams does not hand a zero minSize to nGrams.  For every
    non-empty text, a call with minSize = 0 is the call with the default
    minimum size 2 and returns a token list instead of throwing, whereas a
    negative minSize is passed through and makes nGrams throw its minSize
    error. *)
Theorem makeNGrams_zero_minSize (text : string) (escapeSpecialCharacters prefixOnly : bool) :
  text <> ""%string ->
  orDefaultMinSize (Some 0) = constants.DEFAULT_MIN_SIZE /\
  makeNGrams (VStr text) escapeSpecialCharacters (Some 0) prefixOnly =
  makeNGrams (VStr text) escapeSpecialCharacters (Some 2) prefixOnly /\
  (exists tokens,
     makeNGrams (VStr text) escapeSpecialCharacters (Some 0) prefixOnly = Return tokens) /\
  (forall minSize, minSize < 0 ->
     makeNGrams (VStr text) escapeSpecialCharacters (Some minSize) prefixOnly =
     Throw (Error "minSize must be greater than 0.")).
Proof.
  intros Hne. split; [reflexivity|]. split; [reflexivity|]. split.
  - unfold makeNGrams. simpl truthy. rewrite eqb_empty_false by assumption. simpl negb.
    change (orDefaultMinSize (Some 0)) with 2.
    destruct (mapM_returns
                (fun q => nGrams (replaceSymbols q escapeSpecialCharacters) (Some 2)
                                 (prefixOnly || constants.DEFAULT_PREFIX_ONLY))
                (split " " text)) as [ys Hys].
    + intros q. apply nGrams_returns. lia.
    + rewrite Hys. simpl. eauto.
  - intros minSize Hneg. unfold makeNGrams. simpl truthy.
    rewrite eqb_empty_false by assumption. simpl negb.
    assert (Hd : orDefaultMinSize (Some minSize) = minSize).
    { unfold orDefaultMinSize. destruct (Z.eqb_spec minSize 0); [lia|reflexivity]. }
    rewrite Hd. destruct (split_nonempty " " text) as (w & ws & ->).
    simpl mapM. unfold nGrams at 1, nGrams_run.
    destruct (Z.leb_spec minSize 0); [reflexivity|lia].
Qed.

Lemma makeNGrams_zero_minSize_witness :
  makeNGrams (VStr "ab cd") true (Some 0) false =
  makeNGrams (VStr "ab cd") true (Some 2) false /\
  makeNGrams (VStr "ab cd") true (Some (-1)) false =
  Throw (Error "minSize must be greater than 0.").
Proof.
  destruct (makeNGrams_zero_minSize "ab cd" true false) as (_ & H0 & _ & Hneg);
    [discriminate|].
  split; [exact H0|]. apply Hneg. lia.
Defined.

(** ** fuzzySearch *)

(** C3 (as amended): a call of fuzzySearch without any argument fails
    synchronously with the TypeError of the argument check.  An empty query
    string is accepted: whatever the other arguments are, the call returns a
    find request whose text search has the empty search string. *)
Theorem fuzzySearch_argument_check :
  fuzzySearch [] =
  Throw (TypeError
    "Fuzzy Search: First argument is mandatory and must be a string or an object.") /\
  forall rest : list value,
    exists r, fuzzySearch (VStr "" :: rest) = Return r /\
      (search r = TextSearch "" \/ exists options, search r = AndSearch "" options).
Proof.
  split; [reflexivity|].
  intros rest. unfold fuzzySearch. simpl.
  eexists. split; [reflexivity|]. simpl.
  destruct (truthy (arg (VStr "" :: rest) 1) && isFunctionValue (arg (VStr "" :: rest) 1))%bool;
    [left; reflexivity|].
  destruct (truthy (arg (VStr "" :: rest) 1) && isObject (arg (VStr "" :: rest) 1))%bool eqn:Hobj;
    [|left; reflexivity].
  apply andb_prop in Hobj as [-> _]. right. eauto.
Qed.

(** C3 as stated fails for the empty query string: fuzzySearch of it throws
    nothing and asks the store for the empty text search. *)
Lemma fuzzySearch_empty_query_returns :
  fuzzySearch [VStr ""] = Return {| callback := VNull; search := TextSearch "" |} /\
  ~ (exists e, fuzzySearch [VStr ""] = Throw e).
Proof. split; [reflexivity|]. intros [e He]. discriminate He. Qed.

(** ** The plugin and string-valued keys *)

Section StringKeys.

Lemma keysForEach_modelled {S} (k : keysValue) (f : S -> string -> completion S) (s : S) :
  (forall s' key, exists s'', f s' key = Return s'') ->
  keysForEach k f s <> Unmodelled.
Proof.
  intros Hf. destruct k; simpl; try discriminate.
  destruct (forEachM_returns f ks (fun s' y _ => Hf s' y) s) as [s' ->]. discriminate.
Qed.

Lemma createFields_item_modelled (st : fieldsState) (it : item) :
  createFields_item st it <> Unmodelled.
Proof.
  destruct it as [s|o|]; simpl; try discriminate.
  destruct (keysTruthy (Field.keys o)); [|discriminate].
  match goal with |- bind ?c _ <> _ => destruct c eqn:Hc end; simpl; try discriminate.
  exfalso. eapply keysForEach_modelled; [|exact Hc]. intros; eauto.
Qed.

Lemma checkKeys_modelled (it : item) : checkKeys it <> Unmodelled.
Proof. destruct it as [s|o|]; simpl; try discriminate. destruct (Field.keys o); discriminate. Qed.

Lemma forEachM_modelled {A S} (f : S -> A -> completion S) (l : list A) :
  (forall s y, f s y <> Unmodelled) -> forall s, forEachM f l s <> Unmodelled.
Proof.
  intros Hf. induction l as [|y l IH]; intros s; simpl; [discriminate|].
  destruct (f s y) eqn:Hy; simpl; [apply IH|discriminate|].
  exfalso. eapply Hf, Hy.
Qed.

Lemma createFields_item_string_keys (st : fieldsState) (o : Field.t) (k : string) :
  Field.keys o = KeysString k -> k <> ""%string ->
  createFields_item st (ItemObject o) =
  Throw (TypeError "item.keys.forEach is not a function").
Proof.
  intros Hk Hne. simpl. rewrite Hk. simpl.
  now rewrite eqb_empty_false.
Qed.

End StringKeys.

(** C4 fails on the code.  A field object whose [keys] is a non-empty string
    passes the check of the plugin, but [createFields] then calls
    [item.keys.forEach], which a string does not have: the step throws a
    TypeError where the same object with the one-element list succeeds, and
    the plugin throws for every field list holding such an object. *)
Theorem plugin_string_keys_throw (o : Field.t) (k : string) :
  Field.keys o = KeysString k -> k <> ""%string ->
  checkKeys (ItemObject o) = Return tt /\
  (forall st, createFields_item st (ItemObject o) =
              Throw (TypeError "item.keys.forEach is not a function")) /\
  (forall st, exists st',
     createFields_item st (ItemObject (withKeys o (KeysArray [k]))) = Return st') /\
  (forall schema l language,
     In (ItemObject o) l ->
     exists e, plugin schema (Some {| fields := FieldsArray l;
                                     opt_language_override := language |}) = Throw e).
Proof.
  intros Hk Hne. split; [simpl; now rewrite Hk|].
  split; [intros st; eapply createFields_item_string_keys; eauto|].
  split; [intros st; simpl; eauto|].
  intros schema l language Hin. unfold plugin. simpl.
  destruct (checkFields l) as [[]|e|] eqn:Hcheck; simpl; [|eauto|].
  - unfold createFields.
    destruct (forEachM_throws createFields_item l (ItemObject o)) with
      (s := {| fs_schema := schema; fs_indexes := []; fs_weights := [] |})
      as [e He].
    + intros s y _. apply createFields_item_modelled.
    + exact Hin.
    + intros s. eexists. eapply createFields_item_string_keys; eauto.
    + rewrite He. simpl. eauto.
  - exfalso. revert Hcheck. unfold checkFields. apply forEachM_modelled.
    intros s y. apply checkKeys_modelled.
Qed.

Lemma plugin_string_keys_throw_witness :
  exists e,
    plugin emptySchema
      (Some {| fields :=
                 FieldsArray [ItemObject (Field.make "tags" None (KeysString "label")
                                                     None false None)];
               opt_language_override := None |}) = Throw e.
Proof.
  apply (plugin_string_keys_throw
           (Field.make "tags" None (KeysString "label") None false None) "label");
    [reflexivity|discriminate|left; reflexivity].
Defined.

(** ** createNGrams *)


(** A step of the indexer touches no attribute but the fuzzy attribute of
    its own specification. *)
Lemma createNGrams_item_frame (attributes attributes' : gmap string value)
    (it : item) (k : string) :
  createNGrams_item attributes it = Return attributes' ->
  fuzzyKey it <> Some k ->
  attributes' !! k = attributes !! k.
Proof.
  intros Hstep Hk.
  assert (Hins : forall name v, fuzzyKey it = Some (fuzzyName name) ->
            (<[fuzzyName name := v]> attributes : gmap string value) !! k = attributes !! k).
  { intros name v Hkey. apply lookup_insert_ne. intros <-. now apply Hk. }
  destruct it as [s|o|]; simpl in Hstep.
  - destruct (truthy (prop attributes s)); [|now injection Hstep as <-].
    destruct (makeNGrams _ _ _ _); simpl in Hstep; try discriminate.
    injection Hstep as <-. now apply Hins.
  - destruct (keysTruthy (Field.keys o) && truthy (prop attributes (Field.name o)))%bool.
    + destruct (valueForEach _ _ _); simpl in Hstep; try discriminate.
      injection Hstep as <-. now apply Hins.
    + destruct (truthy (prop attributes (Field.name o))); [|now injection Hstep as <-].
      destruct (makeNGrams _ _ _ _); simpl in Hstep; try discriminate.
      injection Hstep as <-. now apply Hins.
  - now injection Hstep as <-.
Qed.

Lemma createNGrams_frame (fields : list item) (attributes attributes' : gmap string value)
    (k : string) :
  createNGrams attributes fields = Return attributes' ->
  (forall it, In it fields -> fuzzyKey it <> Some k) ->
  attributes' !! k = attributes !! k.
Proof.
  unfold createNGrams. revert attributes.
  induction fields as [|it fields IH]; intros attributes Hrun Hno; simpl in Hrun.
  - now injection Hrun as <-.
  - destruct (createNGrams_item attributes it) as [a| |] eqn:Hstep;
      simpl in Hrun; try discriminate.
    rewrite (IH a Hrun) by (intros it' Hin; apply Hno; now right).
    eapply createNGrams_item_frame; [exact Hstep|]. apply Hno. now left.
Qed.


(** The specification after the skipped one is still indexed. *)
Example createNGrams_partial_update :
  createNGrams {["title" := VStr "Hi"]} [ItemString "summary"; ItemString "title"] =
  Return (<["title_fuzzy" := VArr [VStr "hi"]]> {["title" := VStr "Hi"]}).
Proof. reflexivity. Qed.

(** ** removeFuzzyElements *)

Section OutputFilter.

Lemma removeFuzzy_item_key (ret : gmap string value) (it : item) :
  removeFuzzy_item ret it =
  match fuzzyKey it with
  | Some k => delete k ret
  | None => ret
  end.
Proof. destruct it; reflexivity. Qed.

Lemma removeFuzzy_item_None (ret : gmap string value) (it : item) (k : string) :
  ret !! k = None -> removeFuzzy_item ret it !! k = None.
Proof.
  intros H. rewrite removeFuzzy_item_key. destruct (fuzzyKey it) as [k'|]; [|exact H].
  rewrite lookup_delete. case_decide; auto.
Qed.

Lemma removeFuzzy_fold_None (l : list item) (ret : gmap string value) (k : string) :
  ret !! k = None -> fold_left removeFuzzy_item l ret !! k = None.
Proof.
  revert ret. induction l as [|it l IH]; intros ret H; simpl; [exact H|].
  apply IH, removeFuzzy_item_None, H.
Qed.

(** The fuzzy attribute of a configured field is gone. *)
Lemma removeFuzzy_fold_removed (l : list item) (ret : gmap string value)
    (it : item) (k : string) :
  In it l -> fuzzyKey it = Some k -> fold_left removeFuzzy_item l ret !! k = None.
Proof.
  revert ret. induction l as [|it' l IH]; intros ret Hin Hk; [destruct Hin|].
  simpl. destruct Hin as [->|Hin]; [|now apply IH].
  apply removeFuzzy_fold_None. rewrite removeFuzzy_item_key, Hk.
  apply lookup_delete_eq.
Qed.

(** Every other attribute is kept as it was. *)
Lemma removeFuzzy_fold_frame (l : list item) (ret : gmap string value) (k : string) :
  (forall it, In it l -> fuzzyKey it <> Some k) ->
  fold_left removeFuzzy_item l ret !! k = ret !! k.
Proof.
  revert ret. induction l as [|it l IH]; intros ret Hno; simpl; [reflexivity|].
  rewrite IH by (intros it' Hin; apply Hno; now right).
  rewrite removeFuzzy_item_key.
  destruct (fuzzyKey it) as [k'|] eqn:Hk; [|reflexivity].
  apply lookup_delete_ne. intros ->. apply (Hno it); [now left|exact Hk].
Qed.

End OutputFilter.

(** C8 (as amended): for every field list and every document, the output
    transform removes the attribute [<name>_fuzzy] of every configured field,
    simple, weighted or nested, and leaves every other attribute of the
    document unchanged; it is a total function, so it never fails.  The
    serialized form therefore holds no attribute name ending in [_fuzzy]
    provided every such attribute of the document is the fuzzy attribute of a
    configured field. *)
Theorem removeFuzzyElements_strips_configured
    (l : list item) (doc : value) (ret : gmap string value) (opt : value) :
  (forall it k, In it l -> fuzzyKey it = Some k ->
     removeFuzzyElements l doc ret opt !! k = None) /\
  (forall k, (forall it, In it l -> fuzzyKey it <> Some k) ->
     removeFuzzyElements l doc ret opt !! k = ret !! k) /\
  ((forall k, is_Some (ret !! k) -> endsWith k "_fuzzy" = true ->
      exists it, In it l /\ fuzzyKey it = Some k) ->
   forall k, is_Some (removeFuzzyElements l doc ret opt !! k) ->
     endsWith k "_fuzzy" = false).
Proof.
  unfold removeFuzzyElements. split; [|split].
  - intros it k. apply removeFuzzy_fold_removed.
  - intros k. apply removeFuzzy_fold_frame.
  - intros Hall k Hsome. destruct (endsWith k "_fuzzy") eqn:Hend; [|reflexivity].
    exfalso.
    destruct (ret !! k) as [v|] eqn:Hret.
    + destruct (Hall k) as (it & Hin & Hk); [rewrite Hret; eauto|exact Hend|].
      rewrite (removeFuzzy_fold_removed l ret it k Hin Hk) in Hsome.
      destruct Hsome as [? ?]. discriminate.
    + rewrite (removeFuzzy_fold_None l ret k Hret) in Hsome.
      destruct Hsome as [? ?]. discriminate.
Qed.

Lemma removeFuzzyElements_strips_configured_witness :
  removeFuzzyElements
    [ItemString "title";
     ItemObject (Field.make "tags" None (KeysArray ["label"%string]) None false None)]
    VNull
    (<["tags_fuzzy" := VArr []]> (<["title_fuzzy" := VArr [VStr "hi"]]> {["title" := VStr "Hi"]}))
    VNull !! "tags_fuzzy"%string = None.
Proof.
  eapply (proj1 (removeFuzzyElements_strips_configured _ _ _ _)).
  - right. left. reflexivity.
  - reflexivity.
Defined.

(** C8 as stated fails for a document that has an attribute ending in
    [_fuzzy] which no configured field produces: the transform keeps it. *)
Lemma removeFuzzyElements_keeps_foreign_fuzzy :
  ~ (forall k,
       is_Some (removeFuzzyElements [ItemString "title"] VNull
                  {["other_fuzzy" := VNum 1]} VNull !! k) ->
       endsWith k "_fuzzy" = false).
Proof.
  intros H. specialize (H "other_fuzzy"%string).
  assert (Hs : is_Some (removeFuzzyElements [ItemString "title"] VNull
                          {["other_fuzzy" := VNum 1]} VNull !! "other_fuzzy"%string)).
  { exists (VNum 1). reflexivity. }
  apply H in Hs. vm_compute in Hs. discriminate.
Qed.

(** * Further properties of the code *)

(** ** nGrams in general *)

Section Tokens.

Lemma is_prefix_substring (t s : string) : is_prefix t s -> is_substring t s.
Proof. intros [post ->]. exists EmptyString, post. now rewrite app_empty_l. Qed.

Lemma slice_prefix (s : string) (L : Z) :
  0 <= L <= strlen s -> is_prefix (slice s 0 L) s /\ strlen (slice s 0 L) = L.
Proof.
  intros HL. rewrite slice_inside by lia.
  destruct (substring_split s (Z.to_nat 0) (Z.to_nat (L - 0)))
    as (pre & post & Hs & Hpre & Hlen); [unfold strlen in *; lia|].
  destruct pre; [|simpl in Hpre; discriminate].
  rewrite app_empty_l in Hs. split; [exists post; exact Hs|].
  unfold strlen. rewrite Hlen. lia.
Qed.

Lemma prefix_slice (t s : string) : is_prefix t s -> t = slice s 0 (strlen t).
Proof.
  intros [post ->]. pose proof (strlen_nonneg t). pose proof (strlen_nonneg post).
  rewrite slice_inside by (rewrite ?strlen_app; lia).
  replace (Z.to_nat (strlen t - 0)) with (String.length t) by (unfold strlen; lia).
  pose proof (substring_middle EmptyString t post) as H1.
  rewrite app_empty_l in H1. change (String.length "") with 0%nat in H1.
  change (Z.to_nat 0) with 0%nat. now rewrite H1.
Qed.

Lemma slice_full (s : string) : slice s 0 (strlen s) = s.
Proof.
  symmetry. apply prefix_slice. exists EmptyString. now rewrite app_empty_r.
Qed.

(** The members of the result, for every text and mode. *)
Lemma nGrams_members (text : string) (minSize : Z) (prefixOnly : bool) :
  1 <= minSize ->
  exists l, nGrams text (Some minSize) prefixOnly = Return l /\ List.NoDup l /\
    forall t, In t l <-> is_token text minSize prefixOnly t.
Proof.
  intros Hm. unfold is_token.
  pose proof (strlen_toLowerCase text) as Hlow.
  destruct (String.eqb_spec text "") as [->|Hne].
  { exists []. unfold nGrams, nGrams_run. destruct (Z.leb_spec minSize 0); [lia|].
    simpl. split; [reflexivity|]. split; [constructor|].
    intros t. split; [intros []|]. intros [Hfalse _]. now apply Hfalse. }
  destruct (Z.leb_spec (strlen text) minSize) as [Hshort|Hlong].
  { exists [toLowerCase text]. unfold nGrams.
    rewrite nGrams_run_short by assumption.
    split; [reflexivity|]. split; [repeat constructor; simpl; tauto|].
    intros t. simpl. split.
    - intros [<-|[]]. split; [exact Hne|]. split; [apply is_substring_refl|].
      split; [lia|]. intros _. exists EmptyString. now rewrite app_empty_r.
    - intros (_ & Hsub & Hlen & _). left. symmetry.
      apply is_substring_full; [exact Hsub|lia]. }
  destruct prefixOnly.
  - destruct (prefix_result text minSize) as (l & Hl & Hnd & Hin); [lia|lia|].
    exists l. split; [exact Hl|]. split; [exact Hnd|].
    intros t. rewrite Hin. split.
    + intros (L & HL & ->).
      destruct (slice_prefix (toLowerCase text) L) as [Hpre Hlen]; [lia|].
      split; [exact Hne|]. split; [now apply is_prefix_substring|].
      split; [lia|]. intros _. exact Hpre.
    + intros (_ & Hsub & Hlen & Hpre). exists (strlen t).
      apply is_substring_length in Hsub.
      split; [lia|]. apply prefix_slice. now apply Hpre.
  - destruct (substring_result text minSize) as (l & Hl & Hnd & Hin); [lia|lia|].
    exists l. split; [exact Hl|]. split; [exact Hnd|].
    intros t. rewrite Hin. split.
    + intros [Hsub Hlen]. split; [exact Hne|]. split; [exact Hsub|].
      split; [lia|discriminate].
    + intros (_ & Hsub & Hlen & _). split; [exact Hsub|].
      apply is_substring_length in Hsub. lia.
Qed.

Lemma nGrams_members_of (text : string) (minSize : Z) (prefixOnly : bool) (l : list string) :
  1 <= minSize -> nGrams text (Some minSize) prefixOnly = Return l ->
  forall t, In t l <-> is_token text minSize prefixOnly t.
Proof.
  intros Hm Hl. destruct (nGrams_members text minSize prefixOnly Hm) as (l' & Hl' & _ & Hin).
  rewrite Hl in Hl'. injection Hl' as <-. exact Hin.
Qed.

End Tokens.

(** X1: in either mode and for every text and every integer minSize >= 1, the result
    of nGrams has no duplicate and holds exactly the blocks of the
    lower-cased text that are at least minSize long (the whole text when it
    is shorter), restricted to initial blocks in prefix mode; the empty text
    has no token. *)
Theorem nGrams_exact_tokens (text : string) (minSize : Z) (prefixOnly : bool) :
  1 <= minSize ->
  exists l, nGrams text (Some minSize) prefixOnly = Return l /\ List.NoDup l /\
    forall t, In t l <-> is_token text minSize prefixOnly t.
Proof. apply nGrams_members. Qed.

Lemma nGrams_exact_tokens_witness :
  exists l, nGrams "Hello" (Some 3) true = Return l /\ List.NoDup l /\
    forall t, In t l <-> is_token "Hello" 3 true t.
Proof. apply (nGrams_exact_tokens "Hello" 3 true). lia. Defined.

(** X2: for a minSize that is an integer or absent, nGrams throws exactly
    when the integer is <= 0; with a positive integer or an absent minSize it
    returns a duplicate-free list, whatever the text and the mode. *)
Theorem nGrams_throws_iff (text : string) (minSize : option Z) (prefixOnly : bool) :
  ((exists m, minSize = Some m /\ m <= 0) /\
   nGrams text minSize prefixOnly = Throw (Error "minSize must be greater than 0.")) \/
  (~ (exists m, minSize = Some m /\ m <= 0) /\
   exists l, nGrams text minSize prefixOnly = Return l /\ List.NoDup l).
Proof.
  destruct minSize as [m|].
  - destruct (Z.leb_spec m 0) as [Hle|Hpos].
    + left. split; [eauto|]. unfold nGrams, nGrams_run.
      destruct (Z.leb_spec m 0); [reflexivity|lia].
    + right. split; [intros (m' & [= <-] & ?); lia|].
      destruct (nGrams_members text m prefixOnly) as (l & Hl & Hnd & _); [lia|eauto].
  - right. split; [intros (m' & [=] & _)|].
    destruct (nGrams_members text 2 prefixOnly) as (l & Hl & Hnd & _); [lia|].
    exists l. split; [exact Hl|exact Hnd].
Qed.

(** X3: for a non-empty text and an integer minSize >= 1 the whole lower-cased text is
    always one of the tokens, in both modes; a non-empty word therefore never
    has an empty token list. *)
Theorem nGrams_keeps_whole_word (text : string) (minSize : Z) (prefixOnly : bool) :
  text <> EmptyString -> 1 <= minSize ->
  exists l, nGrams text (Some minSize) prefixOnly = Return l /\
    In (toLowerCase text) l /\ l <> [].
Proof.
  intros Hne Hm. destruct (nGrams_members text minSize prefixOnly Hm) as (l & Hl & _ & Hin).
  assert (H : In (toLowerCase text) l).
  { apply Hin. split; [exact Hne|]. split; [apply is_substring_refl|].
    split; [rewrite strlen_toLowerCase; lia|].
    intros _. exists EmptyString. now rewrite app_empty_r. }
  exists l. split; [exact Hl|]. split; [exact H|]. intros ->. destruct H.
Qed.

Lemma nGrams_keeps_whole_word_witness :
  exists l, nGrams "Hello" (Some 2) false = Return l /\
    In (toLowerCase "Hello") l /\ l <> [].
Proof. apply (nGrams_keeps_whole_word "Hello" 2 false); [discriminate|lia]. Defined.

(** X4: every token of prefix mode is a token of substring mode for the same
    text and minSize. *)
Theorem nGrams_prefix_tokens_are_substring_tokens
    (text : string) (minSize : Z) (lp ls : list string) :
  1 <= minSize ->
  nGrams text (Some minSize) true = Return lp ->
  nGrams text (Some minSize) false = Return ls ->
  forall t, In t lp -> In t ls.
Proof.
  intros Hm Hp Hs t Ht.
  apply (nGrams_members_of text minSize true lp Hm Hp) in Ht.
  apply (nGrams_members_of text minSize false ls Hm Hs).
  destruct Ht as (H1 & H2 & H3 & _). repeat split; auto. discriminate.
Qed.

Lemma nGrams_prefix_tokens_are_substring_tokens_witness :
  In "hell"%string ["llo"; "ell"; "hel"; "ello"; "hell"; "hello"]%string.
Proof.
  apply (nGrams_prefix_tokens_are_substring_tokens "Hello" 3
           ["hel"; "hell"; "hello"]%string);
    [lia|reflexivity|reflexivity|right; now left].
Defined.

(** X5: raising minSize only removes tokens: for 1 <= m <= m' every token
    produced with m' is produced with m, in either mode. *)
Theorem nGrams_minSize_antitone
    (text : string) (m m' : Z) (prefixOnly : bool) (l l' : list string) :
  1 <= m -> m <= m' ->
  nGrams text (Some m) prefixOnly = Return l ->
  nGrams text (Some m') prefixOnly = Return l' ->
  forall t, In t l' -> In t l.
Proof.
  intros Hm Hmm Hl Hl' t Ht.
  apply (nGrams_members_of text m' prefixOnly l') in Ht; [|lia|exact Hl'].
  apply (nGrams_members_of text m prefixOnly l Hm Hl).
  destruct Ht as (H1 & H2 & H3 & H4). repeat split; auto. lia.
Qed.

Lemma nGrams_minSize_antitone_witness :
  In "ello"%string ["llo"; "ell"; "hel"; "ello"; "hell"; "hello"]%string.
Proof.
  apply (nGrams_minSize_antitone "hello" 3 4 false _ ["ello"; "hell"; "hello"]%string);
    [lia|lia|reflexivity|reflexivity|now left].
Defined.

(** X6: nGrams does not see the case of its input: a text and its lower-cased
    form leave through the same exit with the same result. *)
Theorem nGrams_case_insensitive (text : string) (minSize : option Z) (prefixOnly : bool) :
  nGrams_run text minSize prefixOnly = nGrams_run (toLowerCase text) minSize prefixOnly.
Proof.
  unfold nGrams_run.
  assert (He : String.eqb (toLowerCase text) "" = String.eqb text "").
  { destruct text; reflexivity. }
  rewrite He. now rewrite (lower_case_toLowerCase text).
Qed.

(** ** replaceSymbols *)

Section Symbols.

Lemma chars_toLowerCase (s : string) (c : ascii) :
  In c (chars (toLowerCase s)) -> lower_ascii c = c.
Proof.
  induction s as [|d s IH]; simpl; [intros []|].
  intros [<-|H]; [apply lower_ascii_idem|auto].
Qed.

Lemma chars_removeAll (cs : list ascii) (s : string) (c : ascii) :
  In c (chars (removeAll cs s)) ->
  In c (chars s) /\ existsb (Ascii.eqb c) cs = false.
Proof.
  induction s as [|d s IH]; simpl; [intros []|].
  destruct (existsb (Ascii.eqb d) cs) eqn:Hd; simpl.
  - intros H. destruct (IH H). auto.
  - intros [<-|H]; [auto|]. destruct (IH H). auto.
Qed.

Lemma chars_replaceAll (a b : ascii) (s : string) (c : ascii) :
  a <> b -> In c (chars (replaceAll a b s)) ->
  c <> a /\ (c = b \/ In c (chars s)).
Proof.
  intros Hab. induction s as [|d s IH]; simpl; [intros []|].
  intros [<-|H].
  - destruct (Ascii.eqb_spec d a) as [->|Hne]; [split; auto|].
    split; auto.
  - destruct (IH H) as [H1 [H2|H2]]; auto.
Qed.

Lemma removeAll_id (cs : list ascii) (s : string) :
  (forall c, In c (chars s) -> existsb (Ascii.eqb c) cs = false) -> removeAll cs s = s.
Proof.
  induction s as [|d s IH]; simpl; [reflexivity|]. intros H.
  rewrite (H d) by now left. rewrite IH; [reflexivity|]. intros c Hc. apply H. now right.
Qed.

Lemma replaceAll_id (a b : ascii) (s : string) :
  (forall c, In c (chars s) -> c <> a) -> replaceAll a b s = s.
Proof.
  induction s as [|d s IH]; simpl; [reflexivity|]. intros H.
  destruct (Ascii.eqb_spec d a) as [->|Hne]; [exfalso; apply (H a); [now left|reflexivity]|].
  rewrite IH; [reflexivity|]. intros c Hc. apply H. now right.
Qed.

Lemma chars_replaceSymbols (text : string) (escapeSpecialCharacters : bool) (c : ascii) :
  In c (chars (replaceSymbols text escapeSpecialCharacters)) ->
  c <> "_"%char /\ lower_ascii c = c /\
  (escapeSpecialCharacters = true -> existsb (Ascii.eqb c) specialCharacters = false).
Proof.
  unfold replaceSymbols. intros H.
  apply chars_replaceAll in H; [|discriminate]. destruct H as [Hu [->|H]].
  { split; [exact Hu|]. split; reflexivity. }
  split; [exact Hu|]. destruct escapeSpecialCharacters.
  - apply chars_removeAll in H. destruct H as [H Hs].
    split; [now apply chars_toLowerCase in H|auto].
  - split; [now apply chars_toLowerCase in H|discriminate].
Qed.

End Symbols.

(** X7: the output of replaceSymbols never holds an underscore or an
    upper-case letter, and when escapeSpecialCharacters is set it holds none
    of the characters of the regular expression on line 128. *)
Theorem replaceSymbols_output_characters
    (text : string) (escapeSpecialCharacters : bool) (c : ascii) :
  In c (chars (replaceSymbols text escapeSpecialCharacters)) ->
  c <> "_"%char /\ lower_ascii c = c /\
  (escapeSpecialCharacters = true -> ~ In c specialCharacters).
Proof.
  intros H. apply chars_replaceSymbols in H. destruct H as (H1 & H2 & H3).
  split; [exact H1|]. split; [exact H2|]. intros He Hin.
  specialize (H3 He). assert (Ht : existsb (Ascii.eqb c) specialCharacters = true).
  { apply existsb_exists. exists c. split; [exact Hin|apply Ascii.eqb_refl]. }
  congruence.
Qed.

Lemma replaceSymbols_output_characters_witness :
  " "%char <> "_"%char /\ lower_ascii " " = " "%char /\
  (true = true -> ~ In " "%char specialCharacters).
Proof.
  apply (replaceSymbols_output_characters "Foo_Bar!" true " ").
  vm_compute. tauto.
Defined.

(** X8: replaceSymbols is idempotent: applied to its own output with the same
    flag it changes nothing. *)
Theorem replaceSymbols_idempotent (text : string) (escapeSpecialCharacters : bool) :
  replaceSymbols (replaceSymbols text escapeSpecialCharacters) escapeSpecialCharacters =
  replaceSymbols text escapeSpecialCharacters.
Proof.
  set (r := replaceSymbols text escapeSpecialCharacters).
  assert (Hc := chars_replaceSymbols text escapeSpecialCharacters). fold r in Hc.
  unfold replaceSymbols at 1.
  rewrite (replaceSymbols_lower_case text escapeSpecialCharacters : toLowerCase r = r).
  destruct escapeSpecialCharacters.
  - rewrite removeAll_id by (intros c Hin; now apply Hc).
    apply replaceAll_id. intros c Hin. now apply Hc.
  - apply replaceAll_id. intros c Hin. now apply Hc.
Qed.

(** ** makeNGrams in general *)

Section Tokenizer.

Lemma uniq_fold (l acc : list string) :
  List.NoDup acc ->
  List.NoDup (fold_left (fun set x => Set_add x set) l acc) /\
  forall t, In t (fold_left (fun set x => Set_add x set) l acc) <-> In t acc \/ In t l.
Proof.
  revert acc. induction l as [|x l IH]; intros acc Hnd; simpl.
  - split; [exact Hnd|]. intros t. tauto.
  - destruct (IH (Set_add x acc)) as [H1 H2]; [now apply Set_add_NoDup|].
    split; [exact H1|]. intros t. rewrite H2, Set_add_In. intuition (subst; auto).
Qed.

Lemma uniq_spec (l : list string) :
  List.NoDup (uniq l) /\ forall t, In t (uniq l) <-> In t l.
Proof.
  unfold uniq. destruct (uniq_fold l []) as [H1 H2]; [constructor|].
  split; [exact H1|]. intros t. rewrite H2. simpl. tauto.
Qed.

Lemma mapM_concat {A} (f : A -> completion (list string)) (l : list A)
    (ys : list (list string)) :
  mapM f l = Return ys ->
  forall t, In t (concat ys) <-> exists x y, In x l /\ f x = Return y /\ In t y.
Proof.
  revert ys. induction l as [|x l IH]; intros ys; simpl.
  - intros [= <-] t. simpl. split; [intros []|]. intros (x & y & [] & _).
  - destruct (f x) as [y| |] eqn:Hx; simpl; try discriminate.
    destruct (mapM f l) as [ys'| |]; simpl; try discriminate.
    intros [= <-] t. simpl. rewrite in_app_iff, (IH ys' eq_refl). split.
    + intros [H|(x' & y' & H1 & H2 & H3)]; [exists x, y; auto|exists x', y'; auto].
    + intros (x' & y' & [<-|H1] & H2 & H3).
      * left. congruence.
      * right. exists x', y'. auto.
Qed.

Lemma mapM_map {A B C} (f : B -> completion C) (g : A -> B) (l : list A) :
  mapM f (map g l) = mapM (fun x => f (g x)) l.
Proof. induction l as [|x l IH]; simpl; [reflexivity|]. now rewrite IH. Qed.

Lemma mapM_ext {A B} (f g : A -> completion B) (l : list A) :
  (forall x, f x = g x) -> mapM f l = mapM g l.
Proof. intros H. induction l as [|x l IH]; simpl; [reflexivity|]. now rewrite H, IH. Qed.

Lemma eqb_space_lower (c : ascii) : Ascii.eqb (lower_ascii c) " " = Ascii.eqb c " ".
Proof. destruct c as [[] [] [] [] [] [] [] []]; reflexivity. Qed.

Lemma split_toLowerCase (s : string) :
  split " " (toLowerCase s) = map toLowerCase (split " " s).
Proof.
  induction s as [|c s IH]; simpl; [reflexivity|].
  rewrite eqb_space_lower, IH. destruct (Ascii.eqb c " "); [reflexivity|].
  destruct (split " " s); reflexivity.
Qed.

Lemma replaceSymbols_toLowerCase (q : string) (escapeSpecialCharacters : bool) :
  replaceSymbols (toLowerCase q) escapeSpecialCharacters =
  replaceSymbols q escapeSpecialCharacters.
Proof. unfold replaceSymbols. now rewrite (lower_case_toLowerCase q). Qed.

Lemma makeNGrams_members (text : string) (escapeSpecialCharacters prefixOnly : bool)
    (minSize : option Z) :
  1 <= orDefaultMinSize minSize ->
  exists l,
    makeNGrams (VStr text) escapeSpecialCharacters minSize prefixOnly = Return l /\
    List.NoDup l /\
    forall t, In t l <->
      exists w, In w (split " " text) /\
        is_token (replaceSymbols w escapeSpecialCharacters)
                 (orDefaultMinSize minSize) prefixOnly t.
Proof.
  intros Hm. destruct (String.eqb_spec text "") as [->|Hne].
  { exists []. split; [reflexivity|]. split; [constructor|].
    intros t. split; [intros []|]. intros (w & [<-|[]] & Hne & _).
    apply Hne. now destruct escapeSpecialCharacters. }
  unfold makeNGrams. simpl truthy. rewrite eqb_empty_false by assumption. simpl negb.
  change constants.DEFAULT_PREFIX_ONLY with false. rewrite orb_false_r.
  set (f := fun q => nGrams (replaceSymbols q escapeSpecialCharacters)
                            (Some (orDefaultMinSize minSize)) prefixOnly).
  destruct (mapM_returns f (split " " text)) as [ys Hys].
  { intros q. apply nGrams_returns. exact Hm. }
  rewrite Hys. simpl. destruct (uniq_spec (concat ys)) as [Hnd Hin].
  eexists. split; [reflexivity|]. split; [exact Hnd|].
  intros t. rewrite Hin, (mapM_concat f _ _ Hys). split.
  - intros (w & y & Hw & Hy & Ht). exists w. split; [exact Hw|].
    now apply (nGrams_members_of _ _ _ y Hm Hy).
  - intros (w & Hw & Ht).
    destruct (nGrams_members (replaceSymbols w escapeSpecialCharacters)
                (orDefaultMinSize minSize) prefixOnly Hm) as (y & Hy & _ & Hiny).
    exists w, y. split; [exact Hw|]. split; [exact Hy|]. now apply Hiny.
Qed.

End Tokenizer.

(** X9: for a string and a minSize that is absent or an integer >= 0,
    makeNGrams returns a duplicate-free list which is the union of the token
    sets of the words between the spaces, each word being normalised by
    replaceSymbols first. *)
Theorem makeNGrams_union_of_words
    (text : string) (escapeSpecialCharacters prefixOnly : bool) (minSize : option Z) :
  1 <= orDefaultMinSize minSize ->
  exists l,
    makeNGrams (VStr text) escapeSpecialCharacters minSize prefixOnly = Return l /\
    List.NoDup l /\
    forall t, In t l <->
      exists w, In w (split " " text) /\
        is_token (replaceSymbols w escapeSpecialCharacters)
                 (orDefaultMinSize minSize) prefixOnly t.
Proof. apply makeNGrams_members. Qed.

Lemma makeNGrams_union_of_words_witness :
  exists l,
    makeNGrams (VStr "ab cd") true None false = Return l /\
    List.NoDup l /\
    forall t, In t l <->
      exists w, In w (split " " "ab cd") /\
        is_token (replaceSymbols w true) (orDefaultMinSize None) false t.
Proof. apply (makeNGrams_union_of_words "ab cd" true false None). vm_compute. discriminate. Defined.

(** X10: makeNGrams does not see the case of its text: a string and its
    lower-cased form give the same outcome. *)
Theorem makeNGrams_case_insensitive
    (text : string) (escapeSpecialCharacters prefixOnly : bool) (minSize : option Z) :
  makeNGrams (VStr (toLowerCase text)) escapeSpecialCharacters minSize prefixOnly =
  makeNGrams (VStr text) escapeSpecialCharacters minSize prefixOnly.
Proof.
  unfold makeNGrams. simpl truthy.
  assert (He : String.eqb (toLowerCase text) "" = String.eqb text "")
    by (destruct text; reflexivity).
  rewrite He. destruct (String.eqb text ""); simpl; [reflexivity|].
  rewrite split_toLowerCase, mapM_map.
  f_equal. apply mapM_ext. intros q. now rewrite replaceSymbols_toLowerCase.
Qed.

(** ** createNGrams and removeFuzzyElements together *)

Section Indexer.

Lemma fuzzyName_neq (n : string) : fuzzyName n <> n.
Proof.
  unfold fuzzyName. intros H. apply (f_equal String.length) in H.
  rewrite length_app in H. simpl in H. lia.
Qed.

Lemma prop_insert_fuzzy (attributes : gmap string value) (n : string) (v : value) :
  prop (<[fuzzyName n := v]> attributes) n = prop attributes n.
Proof. unfold prop. rewrite lookup_insert_ne; [reflexivity|apply fuzzyName_neq]. Qed.

Lemma createNGrams_item_again (attributes attributes' : gmap string value) (it : item) :
  createNGrams_item attributes it = Return attributes' ->
  createNGrams_item attributes' it = Return attributes'.
Proof.
  intros H. destruct it as [s|o|]; simpl in *.
  - destruct (truthy (prop attributes s)) eqn:Ht.
    + destruct (makeNGrams (prop attributes s) false None false) eqn:Hm;
        simpl in H; try discriminate.
      injection H as <-. rewrite prop_insert_fuzzy, Ht, Hm. simpl.
      now rewrite insert_insert_eq.
    + injection H as <-. now rewrite Ht.
  - destruct (keysTruthy (Field.keys o) && truthy (prop attributes (Field.name o)))%bool
      eqn:Hk.
    + destruct (valueForEach (prop attributes (Field.name o)) _ []) eqn:Hv;
        simpl in H; try discriminate.
      injection H as <-. rewrite prop_insert_fuzzy, Hk, Hv. simpl.
      now rewrite insert_insert_eq.
    + destruct (truthy (prop attributes (Field.name o))) eqn:Ht.
      * destruct (makeNGrams (prop attributes (Field.name o)) _ _ _) eqn:Hm;
          simpl in H; try discriminate.
        injection H as <-. rewrite prop_insert_fuzzy, Ht, Hk, Hm. simpl.
        now rewrite insert_insert_eq.
      * injection H as <-. now rewrite Ht, Hk.
  - now injection H as <-.
Qed.



(** Whether some specification of the list writes the attribute [k]. *)
Lemma fuzzyKey_cases (l : list item) (k : string) :
  (exists it, In it l /\ fuzzyKey it = Some k) \/
  (forall it, In it l -> fuzzyKey it <> Some k).
Proof.
  induction l as [|it l [(it' & Hin & Hk)|IH]].
  - right. intros it [].
  - left. exists it'. split; [now right|exact Hk].
  - destruct (decide (fuzzyKey it = Some k)) as [Hk|Hk].
    + left. exists it. split; [now left|exact Hk].
    + right. intros it' [<-|Hin]; auto.
Qed.

End Indexer.

(** X11: indexing is idempotent for each specification: running the step of
    createNGrams again on the attributes it has just produced changes
    nothing, because the step reads the source attribute and writes only
    the fuzzy one. *)
Theorem createNGrams_item_idempotent
    (attributes attributes' : gmap string value) (it : item) :
  createNGrams_item attributes it = Return attributes' ->
  createNGrams_item attributes' it = Return attributes'.
Proof. apply createNGrams_item_again. Qed.

Lemma createNGrams_item_idempotent_witness :
  createNGrams_item (<["title_fuzzy" := VArr [VStr "hi"]]> {["title" := VStr "Hi"]})
                    (ItemString "title") =
  Return (<["title_fuzzy" := VArr [VStr "hi"]]> {["title" := VStr "Hi"]}).
Proof.
  apply (createNGrams_item_idempotent {["title" := VStr "Hi"]}). reflexivity.
Defined.



(** X13: the output transform undoes the indexer: when the attributes hold no
    fuzzy attribute of a listed specification, indexing them and then
    applying removeFuzzyElements with the same field list gives the
    attributes back. *)
Theorem removeFuzzyElements_after_createNGrams
    (attributes attributes' : gmap string value) (l : list item) (doc opt : value) :
  createNGrams attributes l = Return attributes' ->
  (forall it k, In it l -> fuzzyKey it = Some k -> attributes !! k = None) ->
  removeFuzzyElements l doc attributes' opt = attributes.
Proof.
  intros Hrun Hfresh. apply map_eq. intros k. unfold removeFuzzyElements.
  destruct (fuzzyKey_cases l k) as [(it & Hin & Hk)|Hno].
  - rewrite (removeFuzzy_fold_removed l attributes' it k Hin Hk).
    symmetry. eapply Hfresh; eauto.
  - rewrite (removeFuzzy_fold_frame l attributes' k Hno).
    eapply createNGrams_frame; eauto.
Qed.

Lemma removeFuzzyElements_after_createNGrams_witness :
  removeFuzzyElements [ItemString "title"] VNull
    (<["title_fuzzy" := VArr [VStr "hi"]]> {["title" := VStr "Hi"]}) VNull =
  {["title" := VStr "Hi"]}.
Proof.
  apply (removeFuzzyElements_after_createNGrams {["title" := VStr "Hi"]}).
  - reflexivity.
  - intros it k [<-|[]] [= <-]. reflexivity.
Defined.

(** X14: removeFuzzyElements is idempotent, and its result is a part of the
    document it was given: no attribute is added or changed. *)
Theorem removeFuzzyElements_idempotent
    (l : list item) (doc opt : value) (ret : gmap string value) :
  removeFuzzyElements l doc (removeFuzzyElements l doc ret opt) opt =
  removeFuzzyElements l doc ret opt /\
  removeFuzzyElements l doc ret opt ⊆ ret.
Proof.
  unfold removeFuzzyElements. split.
  - apply map_eq. intros k.
    destruct (fuzzyKey_cases l k) as [(it & Hin & Hk)|Hno].
    + now rewrite !(removeFuzzy_fold_removed l _ it k Hin Hk).
    + now rewrite (removeFuzzy_fold_frame l _ k Hno).
  - apply map_subseteq_spec. intros k v Hv.
    destruct (fuzzyKey_cases l k) as [(it & Hin & Hk)|Hno].
    + rewrite (removeFuzzy_fold_removed l ret it k Hin Hk) in Hv. discriminate.
    + now rewrite (removeFuzzy_fold_frame l ret k Hno) in Hv.
Qed.

(** X15: a string specification whose source attribute holds a truthy value
    that is not a string (a number, an array, an object) makes the indexer
    throw a TypeError: makeNGrams calls [split] on the value. *)
Theorem createNGrams_non_string_source
    (attributes : gmap string value) (s : string) (v : value) (rest : list item) :
  attributes !! s = Some v -> truthy v = true -> isString v = false ->
  createNGrams attributes (ItemString s :: rest) =
  Throw (TypeError "text.split is not a function").
Proof.
  intros Hs Ht Hstr. unfold createNGrams. simpl. unfold prop. rewrite Hs. simpl.
  rewrite Ht. unfold makeNGrams. rewrite Ht. simpl.
  destruct v; try reflexivity; discriminate.
Qed.

Lemma createNGrams_non_string_source_witness :
  createNGrams {["age" := VNum 42]} [ItemString "age"] =
  Throw (TypeError "text.split is not a function").
Proof.
  apply (createNGrams_non_string_source {["age" := VNum 42]} "age" (VNum 42) []);
    reflexivity.
Defined.

(** ** fuzzySearch in general *)

Section Search.

Lemma fuzzySearch_tail (a1 a2 : value) (query : string) :
  {| callback :=
       (if (negb (truthy (if (truthy a1 && isFunctionValue a1)%bool then a1 else VNull)) &&
            isFunctionValue a2)%bool
        then a2
        else if (truthy a1 && isFunctionValue a1)%bool then a1 else VNull);
     search :=
       (if negb (truthy (if (truthy a1 && isFunctionValue a1)%bool then VNull
                         else if (truthy a1 && isObject a1)%bool then a1 else VNull))
        then TextSearch query
        else AndSearch query
               (if (truthy a1 && isFunctionValue a1)%bool then VNull
                else if (truthy a1 && isObject a1)%bool then a1 else VNull)) |} =
  {| callback := callbackOf a1 a2; search := filterOf query a1 |}.
Proof.
  unfold callbackOf, filterOf.
  destruct (isObject a1) eqn:Hobj.
  - destruct a1; try discriminate. simpl. destruct (isFunctionValue a2); reflexivity.
  - destruct a1 as [| |b|n|s|l|m|f]; simpl; rewrite ?andb_false_r; simpl;
      destruct (isFunctionValue a2); reflexivity.
Qed.

Lemma fuzzySearch_string (q : string) (rest : list value) :
  fuzzySearch (VStr q :: rest) =
  bind (makeNGrams (VStr q) false (Some 2) false)
       (fun tokens =>
          Return {| callback := callbackOf (arg rest 0) (arg rest 1);
                    search := filterOf (String.concat " " tokens) (arg rest 0) |}).
Proof.
  unfold fuzzySearch.
  change (arg (VStr q :: rest) 0) with (VStr q).
  change (arg (VStr q :: rest) 1) with (arg rest 0).
  change (arg (VStr q :: rest) 2) with (arg rest 1).
  change constants.DEFAULT_MIN_SIZE with 2.
  change constants.DEFAULT_PREFIX_ONLY with false.
  cbn [length Nat.eqb isString isObject andb negb orb asMinSize truthy bind Z.eqb].
  destruct (makeNGrams (VStr q) false (Some 2) false) as [tokens| |]; simpl; try reflexivity.
  f_equal. apply fuzzySearch_tail.
Qed.

End Search.

Section SearchFacts.

Lemma searchText_filterOf (query : string) (a1 : value) :
  searchText (filterOf query a1) = query.
Proof. unfold filterOf. destruct (isObject a1); reflexivity. Qed.

Lemma makeNGrams_default_returns (q : string) :
  exists tokens, makeNGrams (VStr q) false (Some 2) false = Return tokens.
Proof.
  destruct (makeNGrams_members q false false (Some 2)) as (l & Hl & _); [simpl; lia|].
  eauto.
Qed.

Lemma callbackOf_parseArguments (args : list value) :
  pa_callback (parseArguments args 1 2) = callbackOf (arg args 1) (arg args 2).
Proof.
  unfold parseArguments, callbackOf, isFunction. simpl.
  destruct (arg args 1) as [| |b|n|s|l|m|f]; simpl; rewrite ?andb_false_r; simpl;
    try reflexivity.
Qed.

Lemma filterOf_parseArguments (args : list value) (query : string) :
  filterOf query (pa_options (parseArguments args 1 2)) = filterOf query (arg args 1).
Proof.
  unfold parseArguments, filterOf, isFunction. cbn [pa_options].
  destruct (isObject (arg args 1)) eqn:Hobj.
  - destruct (arg args 1); try discriminate.
    cbn [truthy isFunctionValue andb negb]. now rewrite Hobj.
  - destruct (arg args 1) as [| |b|n|s|l|m|f]; simpl; rewrite ?andb_false_r; simpl;
      reflexivity.
Qed.

End SearchFacts.

(** X16: with a string as first argument fuzzySearch never throws.  The
    search string is the tokens of the query, made with minSize 2, substring
    mode and no escaping, joined by spaces; a function in second place (or
    else in third place) is the callback, and a second argument that passes
    isObject (a plain object with [constructor === Object] and at least one
    own key) is and-ed to the text search; an empty object, or one with a
    [constructor] property of its own, is ignored. *)
Theorem fuzzySearch_string_query (q : string) (rest : list value) :
  exists tokens,
    makeNGrams (VStr q) false (Some 2) false = Return tokens /\
    fuzzySearch (VStr q :: rest) =
    Return {| callback := callbackOf (arg rest 0) (arg rest 1);
              search := filterOf (String.concat " " tokens) (arg rest 0) |}.
Proof.
  destruct (makeNGrams_default_returns q) as [tokens Ht].
  exists tokens. split; [exact Ht|]. rewrite fuzzySearch_string, Ht. reflexivity.
Qed.

(** X17: indexing and querying agree on string specifications: the tokens
    createNGrams stores for a non-empty string attribute are the tokens
    fuzzySearch puts, joined by spaces, into the search string when the same
    string is the query. *)
Theorem createNGrams_fuzzySearch_same_tokens
    (attributes : gmap string value) (n s : string) :
  attributes !! n = Some (VStr s) -> s <> EmptyString ->
  exists tokens,
    createNGrams_item attributes (ItemString n) =
      Return (<[fuzzyName n := tokensValue tokens]> attributes) /\
    forall rest, exists r,
      fuzzySearch (VStr s :: rest) = Return r /\
      searchText (search r) = String.concat " " tokens.
Proof.
  intros Hn Hs. destruct (makeNGrams_default_returns s) as [tokens Ht].
  exists tokens. split.
  - simpl. unfold prop. rewrite Hn. simpl. rewrite eqb_empty_false by assumption. simpl.
    change (makeNGrams (VStr s) false None false)
      with (makeNGrams (VStr s) false (Some 2) false).
    rewrite Ht. reflexivity.
  - intros rest. rewrite fuzzySearch_string, Ht. simpl.
    eexists. split; [reflexivity|]. simpl. apply searchText_filterOf.
Qed.

Lemma createNGrams_fuzzySearch_same_tokens_witness :
  exists tokens,
    createNGrams_item {["title" := VStr "Hi"]} (ItemString "title") =
      Return (<[fuzzyName "title" := tokensValue tokens]> {["title" := VStr "Hi"]}) /\
    forall rest, exists r,
      fuzzySearch (VStr "Hi" :: rest) = Return r /\
      searchText (search r) = String.concat " " tokens.
Proof.
  apply (createNGrams_fuzzySearch_same_tokens {["title" := VStr "Hi"]} "title" "Hi");
    [reflexivity|discriminate].
Defined.

(** X18: the argument handling written out in fuzzySearch is that of
    parseArguments(args, 1, 2): a returning call has the callback
    parseArguments finds, and its filter is the text search alone unless the
    options parseArguments finds are a non-empty object, which is then and-ed
    to it. *)
Theorem fuzzySearch_parses_like_parseArguments (args : list value) (r : findRequest) :
  fuzzySearch args = Return r ->
  callback r = pa_callback (parseArguments args 1 2) /\
  search r = filterOf (searchText (search r)) (pa_options (parseArguments args 1 2)).
Proof.
  unfold fuzzySearch. intros H.
  destruct ((length args =? 0)%nat && _)%bool; [discriminate|].
  destruct (asMinSize _) as [ms| |]; cbn [bind] in H; try discriminate.
  destruct (makeNGrams _ _ _ _) as [tokens| |]; cbn [bind] in H; try discriminate.
  rewrite fuzzySearch_tail in H. injection H as <-. cbn [callback search].
  rewrite callbackOf_parseArguments, filterOf_parseArguments, searchText_filterOf.
  split; reflexivity.
Qed.

Lemma fuzzySearch_parses_like_parseArguments_witness :
  callback {| callback := VFun 1; search := TextSearch "jo" |} =
    pa_callback (parseArguments [VStr "jo"; VFun 1] 1 2) /\
  search {| callback := VFun 1; search := TextSearch "jo" |} =
    filterOf (searchText (search {| callback := VFun 1; search := TextSearch "jo" |}))
             (pa_options (parseArguments [VStr "jo"; VFun 1] 1 2)).
Proof.
  apply (fuzzySearch_parses_like_parseArguments [VStr "jo"; VFun 1]). reflexivity.
Defined.

(** X19: a query object (a plain object without a [constructor] property of
    its own) that carries [query] and neither [minSize] nor [prefixOnly]
    behaves like the bare query string: minSize and prefixOnly fall back to
    the defaults. *)
Theorem fuzzySearch_query_object_defaults
    (m : gmap string value) (q : string) (rest : list value) :
  m !! "constructor"%string = None ->
  m !! "query"%string = Some (VStr q) ->
  m !! "minSize"%string = None ->
  m !! "prefixOnly"%string = None ->
  fuzzySearch (VObj m :: rest) = fuzzySearch (VStr q :: rest).
Proof.
  intros Hc Hq Hm Hp. rewrite fuzzySearch_string. unfold fuzzySearch.
  change (arg (VObj m :: rest) 0) with (VObj m).
  change (arg (VObj m :: rest) 1) with (arg rest 0).
  change (arg (VObj m :: rest) 2) with (arg rest 1).
  assert (Hobj : isObject (VObj m) = true).
  { simpl. unfold prop. rewrite Hc. simpl. apply Nat.ltb_lt.
    assert (size m <> 0%nat) by (apply (map_size_ne_0_lookup_2 m "query"); rewrite Hq; eauto).
    lia. }
  assert (Hquery : prop m "query" = VStr q) by (unfold prop; now rewrite Hq).
  assert (Hmin : prop m "minSize" = VUndefined) by (unfold prop; now rewrite Hm).
  assert (Hpre : prop m "prefixOnly" = VUndefined) by (unfold prop; now rewrite Hp).
  rewrite Hobj. cbn [length Nat.eqb andb property]. rewrite Hquery, Hmin, Hpre.
  cbn [asMinSize truthy negb bind].
  change (makeNGrams (VStr q) false None false)
    with (makeNGrams (VStr q) false (Some 2) false).
  destruct (makeNGrams (VStr q) false (Some 2) false) as [tokens| |]; simpl; try reflexivity.
  f_equal. apply fuzzySearch_tail.
Qed.

Lemma fuzzySearch_query_object_defaults_witness :
  fuzzySearch [VObj {["query" := VStr "jo"]}] = fuzzySearch [VStr "jo"].
Proof.
  apply (fuzzySearch_query_object_defaults {["query" := VStr "jo"]} "jo" []); reflexivity.
Defined.

(** ** Nested specifications *)

Section Nested.

Lemma forEachM_inserts (g : gmap string value -> string -> completion (gmap string value))
    (ks : list string) :
  (forall obj key obj', g obj key = Return obj' ->
     exists v, obj' = <[fuzzyName key := v]> obj) ->
  forall obj0 obj, forEachM g ks obj0 = Return obj ->
    forall k, is_Some (obj !! k) <->
      is_Some (obj0 !! k) \/ exists key, In key ks /\ k = fuzzyName key.
Proof.
  intros Hg. induction ks as [|key ks IH]; intros obj0 obj Hrun k; simpl in Hrun.
  - injection Hrun as <-. split; [auto|]. intros [H|(key & [] & _)]. exact H.
  - destruct (g obj0 key) as [obj1| |] eqn:Hstep; simpl in Hrun; try discriminate.
    destruct (Hg _ _ _ Hstep) as [v ->].
    rewrite (IH _ _ Hrun k), lookup_insert_is_Some. split.
    + intros [[<-|[_ H]]|(key' & Hin & ->)].
      * right. exists key. split; [now left|reflexivity].
      * left. exact H.
      * right. exists key'. split; [now right|reflexivity].
    + intros [H|(key' & [<-|Hin] & ->)].
      * destruct (decide (fuzzyName key = k)); auto.
      * auto.
      * right. exists key'. auto.
Qed.

Lemma forEachM_pushes (f : list value -> value -> completion (list value))
    (Q : value -> Prop) (l : list value) :
  (forall attrs data attrs', f attrs data = Return attrs' ->
     exists v, attrs' = attrs ++ [v] /\ Q v) ->
  forall acc out, forEachM f l acc = Return out ->
    exists new, out = acc ++ new /\ length new = length l /\ Forall Q new.
Proof.
  intros Hf. induction l as [|data l IH]; intros acc out Hrun; simpl in Hrun.
  - injection Hrun as <-. exists []. rewrite app_nil_r. auto.
  - destruct (f acc data) as [acc1| |] eqn:Hstep; simpl in Hrun; try discriminate.
    destruct (Hf _ _ _ Hstep) as (v & -> & Hv).
    destruct (IH _ _ Hrun) as (new & -> & Hlen & Hall).
    exists (v :: new). rewrite <- app_assoc. simpl. split; [reflexivity|].
    split; [now rewrite Hlen|]. constructor; assumption.
Qed.

End Nested.

(** X20: for a nested specification (keys given as an array) whose source
    attribute is an array, a successful indexing step stores under
    [<name>_fuzzy] an array aligned with the source: it has one entry per
    element, and every entry is an object whose properties are exactly the
    [<key>_fuzzy] of the configured keys. *)
Theorem createNGrams_nested_aligned
    (attributes attributes' : gmap string value) (o : Field.t)
    (ks : list string) (l : list value) :
  Field.keys o = KeysArray ks ->
  attributes !! Field.name o = Some (VArr l) ->
  createNGrams_item attributes (ItemObject o) = Return attributes' ->
  exists out,
    attributes' !! fuzzyName (Field.name o) = Some (VArr out) /\
    length out = length l /\
    Forall (fun v => exists obj, v = VObj obj /\
              forall k, is_Some (obj !! k) <-> exists key, In key ks /\ k = fuzzyName key)
           out.
Proof.
  intros Hk Hsrc H. simpl in H. unfold prop in H. rewrite Hk, Hsrc in H. simpl in H.
  match type of H with
  | bind (forEachM ?f l []) _ = _ => destruct (forEachM f l []) as [out| |] eqn:Hrun
  end; simpl in H; try discriminate.
  injection H as <-. exists out. split; [apply lookup_insert_eq|].
  eapply forEachM_pushes in Hrun.
  - destruct Hrun as (new & -> & Hlen & Hall). simpl. split; [exact Hlen|exact Hall].
  - intros attrs data attrs' Hstep. simpl in Hstep.
    match type of Hstep with
    | bind (forEachM ?g ks ∅) _ = _ => destruct (forEachM g ks ∅) as [obj| |] eqn:Hobj
    end; simpl in Hstep; try discriminate.
    injection Hstep as <-. exists (VObj obj). split; [reflexivity|].
    exists obj. split; [reflexivity|]. intros k.
    eapply forEachM_inserts in Hobj.
    + rewrite Hobj, lookup_empty. split.
      * intros [[? Hx]|Hx]; [discriminate|exact Hx].
      * auto.
    + intros obj1 key obj' Hg. simpl in Hg.
      destruct (getProperty data key); simpl in Hg; try discriminate.
      destruct (makeNGrams _ _ _ _); simpl in Hg; try discriminate.
      injection Hg as <-. eauto.
Qed.

Lemma createNGrams_nested_aligned_witness :
  exists out,
    (<["tags_fuzzy" := VArr [VObj {["label_fuzzy" := VArr [VStr "ab"]]}]]>
       {["tags" := VArr [VObj {["label" := VStr "ab"]}]]} : gmap string value)
      !! fuzzyName "tags" = Some (VArr out) /\
    length out = length [VObj {["label" := VStr "ab"]}] /\
    Forall (fun v => exists obj, v = VObj obj /\
              forall k, is_Some (obj !! k) <->
                exists key, In key ["label"%string] /\ k = fuzzyName key)
           out.
Proof.
  apply (createNGrams_nested_aligned
           {["tags" := VArr [VObj {["label" := VStr "ab"]}]]} _
           (Field.make "tags" None (KeysArray ["label"%string]) None false None)
           ["label"%string] [VObj {["label" := VStr "ab"]}]);
    reflexivity.
Defined.

(** ** The plugin in general *)

Section Plugin.

Lemma forallb_false {A} (f : A -> bool) (l : list A) :
  forallb f l = false -> exists x, In x l /\ f x = false.
Proof.
  induction l as [|x l IH]; simpl; [discriminate|].
  destruct (f x) eqn:Hx; simpl.
  - intros H. destruct (IH H) as (y & Hy & Hfy). exists y. auto.
  - intros _. exists x. auto.
Qed.

Lemma checkKeys_accepted (it : item) : acceptedItem it = true -> checkKeys it = Return tt.
Proof.
  destruct it as [s|o|]; simpl; try reflexivity.
  destruct (Field.keys o); try reflexivity. discriminate.
Qed.

Lemma createFields_item_accepted (st : fieldsState) (it : item) :
  acceptedItem it = true -> exists st', createFields_item st it = Return st'.
Proof.
  destruct it as [s|o|]; simpl; [eauto| |discriminate].
  destruct (Field.keys o) as [|k|ks|] eqn:Hk; simpl; intros Hacc.
  - eauto.
  - rewrite Hacc. simpl. eauto.
  - destruct (forEachM_returns
                (fun idx key =>
                   Return (setProperty (fuzzyName (Field.name o) +:+ "." +:+ fuzzyName key)
                                       "text"%string idx))
                ks (fun s y _ => ex_intro _ _ eq_refl) (fs_indexes st)) as [idx ->].
    simpl. eauto.
  - discriminate.
Qed.

(** A specification the plugin cannot use makes it throw. *)
Lemma plugin_rejects (schema : Schema) (l : list item) (language : option string)
    (it : item) :
  In it l -> acceptedItem it = false ->
  exists e, plugin schema (Some {| fields := FieldsArray l;
                                  opt_language_override := language |}) = Throw e.
Proof.
  intros Hin Hacc. unfold plugin. simpl.
  destruct (checkFields l) as [[]|e|] eqn:Hcheck; simpl; [|eauto|].
  - unfold createFields.
    destruct (forEachM_throws createFields_item l it) with
      (s := {| fs_schema := schema; fs_indexes := []; fs_weights := [] |})
      as [e He].
    + intros s y _. apply createFields_item_modelled.
    + exact Hin.
    + intros s. destruct it as [n|o|]; simpl in *; [discriminate| |eauto].
      destruct (Field.keys o) as [|k|ks|] eqn:Hk; simpl; try discriminate.
      * rewrite Hacc. simpl. eauto.
      * exfalso. unfold checkFields in Hcheck.
        destruct (forEachM_throws (fun (_ : unit) it => checkKeys it) l (ItemObject o))
          with (s := tt) as [e He].
        -- intros _ y _. apply checkKeys_modelled.
        -- exact Hin.
        -- intros _. simpl. rewrite Hk. eauto.
        -- congruence.
    + rewrite He. simpl. eauto.
  - exfalso. revert Hcheck. unfold checkFields. apply forEachM_modelled.
    intros s y. apply checkKeys_modelled.
Qed.

Lemma setProperty_In_inv {V} (k : string) (v : V) (obj : list (string * V)) (k' : string) (v' : V) :
  In (k', v') (setProperty k v obj) -> (k', v') = (k, v) \/ In (k', v') obj.
Proof.
  induction obj as [|[k0 v0] obj IH]; simpl.
  - intros [H|[]]. left. congruence.
  - destruct (String.eqb k k0); simpl.
    + intros [H|H]; [left; congruence|auto].
    + intros [H|H]; [auto|]. destruct (IH H); auto.
Qed.

Lemma setProperty_In_new {V} (k : string) (v : V) (obj : list (string * V)) :
  In (k, v) (setProperty k v obj).
Proof.
  induction obj as [|[k0 v0] obj IH]; simpl; [auto|].
  destruct (String.eqb k k0); simpl; auto.
Qed.

Lemma setProperty_keeps_key {V} (k : string) (v : V) (obj : list (string * V)) (k' : string) :
  (exists v', In (k', v') obj) -> exists v', In (k', v') (setProperty k v obj).
Proof.
  intros [v' H]. induction obj as [|[k0 v0] obj IH]; [destruct H|]. simpl.
  destruct (String.eqb_spec k k0) as [->|Hne]; simpl.
  - destruct H as [[= <- <-]|H]; eauto.
  - destruct H as [H|H]; [eauto|]. destruct (IH H) as [v'' Hv'']. eauto.
Qed.

Lemma setProperty_keeps_entry {V} (k : string) (v : V) (obj : list (string * V)) (k' : string) :
  In (k', v) obj -> In (k', v) (setProperty k v obj).
Proof.
  induction obj as [|[k0 v0] obj IH]; [intros []|]. simpl.
  destruct (String.eqb_spec k k0) as [->|Hne]; simpl.
  - intros [[= <- <-]|H]; auto.
  - intros [H|H]; auto.
Qed.

Lemma nestedIndex_run (F : string -> string) (ks : list string) :
  forall idx idx',
    forEachM (fun idx key => Return (setProperty (F key) "text"%string idx)) ks idx
      = Return idx' ->
    (forall k v, In (k, v) idx' ->
       In (k, v) idx \/ v = "text"%string /\ In k (map F ks)) /\
    (forall k, In (k, "text"%string) idx \/ In k (map F ks) -> In (k, "text"%string) idx').
Proof.
  induction ks as [|key ks IH]; intros idx idx' Hrun; simpl in Hrun.
  - injection Hrun as <-. split; [auto|]. intros k [H|[]]. exact H.
  - destruct (IH _ _ Hrun) as [H1 H2]. split.
    + intros k v Hin. destruct (H1 k v Hin) as [H|[-> H]].
      * apply setProperty_In_inv in H. destruct H as [[= -> ->]|H]; [|auto].
        right. split; [reflexivity|now left].
      * right. split; [reflexivity|now right].
    + intros k [H|[<-|H]]; apply H2.
      * left. now apply setProperty_keeps_entry.
      * left. apply setProperty_In_new.
      * now right.
Qed.

(** What one step of createFields does to the declared paths and to the
    index being collected. *)
Lemma createFields_item_step (st st' : fieldsState) (it : item) :
  createFields_item st it = Return st' ->
  indexes (fs_schema st') = indexes (fs_schema st) /\
  (forall k, (exists ty, In (k, ty) (paths (fs_schema st))) \/ fuzzyKey it = Some k ->
             exists ty, In (k, ty) (paths (fs_schema st'))) /\
  (forall k v, In (k, v) (fs_indexes st') ->
     In (k, v) (fs_indexes st) \/ v = "text"%string /\ In k (indexKeys it)) /\
  (forall k, In (k, "text"%string) (fs_indexes st) \/ In k (indexKeys it) ->
             In (k, "text"%string) (fs_indexes st')).
Proof.
  assert (Hpath : forall n ty k,
            (exists ty', In (k, ty') (paths (fs_schema st))) \/ Some (fuzzyName n) = Some k ->
            exists ty', In (k, ty') (setProperty (fuzzyName n) ty (paths (fs_schema st)))).
  { intros n ty k [H|[= <-]]; [now apply setProperty_keeps_key|].
    exists ty. apply setProperty_In_new. }
  assert (Hplain : forall n,
    (forall k v, In (k, v) (setProperty (fuzzyName n) "text"%string (fs_indexes st)) ->
       In (k, v) (fs_indexes st) \/ v = "text"%string /\ In k [fuzzyName n]) /\
    (forall k, In (k, "text"%string) (fs_indexes st) \/ In k [fuzzyName n] ->
       In (k, "text"%string) (setProperty (fuzzyName n) "text"%string (fs_indexes st)))).
  { intros n. split.
    - intros k v H. apply setProperty_In_inv in H. destruct H as [[= -> ->]|H]; [|auto].
      right. split; [reflexivity|now left].
    - intros k [H|[<-|[]]]; [now apply setProperty_keeps_entry|apply setProperty_In_new]. }
  destruct it as [s|o|]; simpl; [| |discriminate].
  - intros [= <-]. simpl. split; [reflexivity|]. split; [apply Hpath|apply Hplain].
  - destruct (keysTruthy (Field.keys o)) eqn:Hkt.
    + destruct (Field.keys o) as [|k0|ks|] eqn:Hk; simpl; try discriminate.
      destruct (forEachM _ ks (fs_indexes st)) as [idx| |] eqn:Hrun; simpl; try discriminate.
      intros [= <-]. simpl. split; [reflexivity|]. split; [apply Hpath|].
      apply (nestedIndex_run _ ks _ _ Hrun).
    + intros [= <-]. simpl. split; [reflexivity|]. split; [apply Hpath|apply Hplain].
Qed.

Lemma createFields_run (l : list item) :
  forall st st', forEachM createFields_item l st = Return st' ->
  indexes (fs_schema st') = indexes (fs_schema st) /\
  (forall k, (exists ty, In (k, ty) (paths (fs_schema st))) \/
             (exists it, In it l /\ fuzzyKey it = Some k) ->
             exists ty, In (k, ty) (paths (fs_schema st'))) /\
  (forall k v, In (k, v) (fs_indexes st') ->
     In (k, v) (fs_indexes st) \/
     v = "text"%string /\ exists it, In it l /\ In k (indexKeys it)) /\
  (forall k, In (k, "text"%string) (fs_indexes st) \/
             (exists it, In it l /\ In k (indexKeys it)) ->
             In (k, "text"%string) (fs_indexes st')).
Proof.
  induction l as [|it l IH]; intros st st' Hrun; simpl in Hrun.
  - injection Hrun as <-. split; [reflexivity|]. split; [|split].
    + intros k [H|(it & [] & _)]. exact H.
    + auto.
    + intros k [H|(it & [] & _)]. exact H.
  - destruct (createFields_item st it) as [st1| |] eqn:Hstep; simpl in Hrun; try discriminate.
    destruct (createFields_item_step _ _ _ Hstep) as (A1 & A2 & A3 & A4).
    destruct (IH _ _ Hrun) as (B1 & B2 & B3 & B4).
    split; [congruence|]. split; [|split].
    + intros k [H|(it' & [<-|Hin] & Hk)]; apply B2.
      * left. apply A2. now left.
      * left. apply A2. now right.
      * right. exists it'. auto.
    + intros k v H. destruct (B3 k v H) as [H1|[-> (it' & Hin & Hk)]].
      * destruct (A3 k v H1) as [H2|[-> H2]]; [now left|].
        right. split; [reflexivity|]. exists it. split; [now left|exact H2].
      * right. split; [reflexivity|]. exists it'. split; [now right|exact Hk].
    + intros k [H|(it' & [<-|Hin] & Hk)]; apply B4.
      * left. apply A4. now left.
      * left. apply A4. now right.
      * right. exists it'. auto.
Qed.

End Plugin.

(** X21: the plugin builds a schema exactly for the field lists whose
    elements are all strings or objects with absent, array-valued or empty
    [keys]; for any other list it throws. *)
Theorem plugin_succeeds_iff (schema : Schema) (l : list item) (language : option string) :
  (exists schema', plugin schema (Some {| fields := FieldsArray l;
                                         opt_language_override := language |})
                   = Return schema') <->
  forallb acceptedItem l = true.
Proof.
  split.
  - intros [schema' H]. destruct (forallb acceptedItem l) eqn:Hall; [reflexivity|].
    apply forallb_false in Hall. destruct Hall as (it & Hin & Hacc).
    destruct (plugin_rejects schema l language it Hin Hacc) as [e He]. congruence.
  - intros Hall. rewrite forallb_forall in Hall. unfold plugin. simpl.
    assert (Hcheck : checkFields l = Return tt).
    { unfold checkFields.
      destruct (forEachM_returns (fun (_ : unit) it => checkKeys it) l) with (s := tt)
        as [[] ->]; [|reflexivity].
      intros [] y Hy. exists tt. apply checkKeys_accepted. auto. }
    rewrite Hcheck. simpl. unfold createFields.
    destruct (forEachM_returns createFields_item l) with
      (s := {| fs_schema := schema; fs_indexes := []; fs_weights := [] |}) as [st ->].
    + intros s y Hy. apply createFields_item_accepted. auto.
    + simpl. eauto.
Qed.

(** X22: when the plugin succeeds it declares the path [<name>_fuzzy] of
    every field, keeps the paths the schema had, and adds one index to the
    schema whose keys, all of type "text", are exactly the index keys of the
    fields: the fuzzy attribute of a plain field and one dotted path
    [<name>_fuzzy.<key>_fuzzy] per key of a nested field. *)
Theorem plugin_declares_paths_and_index
    (schema schema' : Schema) (l : list item) (language : option string) :
  plugin schema (Some {| fields := FieldsArray l; opt_language_override := language |})
    = Return schema' ->
  (forall k, (exists ty, In (k, ty) (paths schema)) \/
             (exists it, In it l /\ fuzzyKey it = Some k) ->
             exists ty, In (k, ty) (paths schema')) /\
  exists idx options,
    indexes schema' = indexes schema ++ [(idx, options)] /\
    forall k v, In (k, v) idx <->
      v = "text"%string /\ exists it, In it l /\ In k (indexKeys it).
Proof.
  unfold plugin. simpl.
  destruct (checkFields l) as [[]| |]; simpl; try discriminate.
  unfold createFields.
  destruct (forEachM createFields_item l _) as [st| |] eqn:Hrun; simpl; try discriminate.
  intros [= <-]. simpl.
  destruct (createFields_run l _ _ Hrun) as (B1 & B2 & B3 & B4). simpl in *.
  split; [exact B2|]. eexists _, _. split; [now rewrite B1|].
  intros k v. split.
  - intros H. destruct (B3 k v H) as [[]|H']. exact H'.
  - intros [-> H]. apply B4. now right.
Qed.

Lemma plugin_declares_paths_and_index_witness :
  exists schema' idx options,
    plugin emptySchema (Some {| fields := FieldsArray [ItemString "title"];
                                opt_language_override := None |}) = Return schema' /\
    indexes schema' = indexes emptySchema ++ [(idx, options)] /\
    forall k v, In (k, v) idx <->
      v = "text"%string /\ exists it, In it [ItemString "title"] /\ In k (indexKeys it).
Proof.
  eexists.
  destruct (plugin_declares_paths_and_index emptySchema _ [ItemString "title"] None eq_refl)
    as (_ & idx & options & H1 & H2).
  exists idx, options. split; [reflexivity|]. split; [exact H1|exact H2].
Defined.

(** ** Index options *)

Section IndexOptions.

Lemma createFields_item_weights (st st' : fieldsState) (it : item) (k : string) (w : Z) :
  createFields_item st it = Return st' ->
  In (k, w) (fs_weights st') ->
  In (k, w) (fs_weights st) \/
  exists o, it = ItemObject o /\ keysTruthy (Field.keys o) = false /\
            Field.weight o = Some w /\ w <> 0 /\ k = fuzzyName (Field.name o).
Proof.
  destruct it as [s|o|]; simpl; [| |discriminate].
  - intros [= <-]. simpl. auto.
  - destruct (keysTruthy (Field.keys o)) eqn:Hkt.
    + destruct (keysForEach _ _ _); simpl; try discriminate. intros [= <-]. simpl. auto.
    + intros [= <-]. simpl. destruct (Field.weight o) as [w0|] eqn:Hw; [|auto].
      destruct (Z.eqb_spec w0 0) as [->|Hne]; [auto|].
      intros H. apply setProperty_In_inv in H. destruct H as [[= -> ->]|H]; [|auto].
      right. exists o. auto.
Qed.

Lemma createFields_weights (l : list item) (k : string) (w : Z) :
  forall st st', forEachM createFields_item l st = Return st' ->
  In (k, w) (fs_weights st') ->
  In (k, w) (fs_weights st) \/
  exists o, In (ItemObject o) l /\ keysTruthy (Field.keys o) = false /\
            Field.weight o = Some w /\ w <> 0 /\ k = fuzzyName (Field.name o).
Proof.
  induction l as [|it l IH]; intros st st' Hrun Hin; simpl in Hrun.
  - injection Hrun as <-. auto.
  - destruct (createFields_item st it) as [st1| |] eqn:Hstep; simpl in Hrun; try discriminate.
    destruct (IH _ _ Hrun Hin) as [H|(o & Ho & H)].
    + destruct (createFields_item_weights _ _ _ _ _ Hstep H) as [H'|(o & -> & H')]; [auto|].
      right. exists o. split; [now left|exact H'].
    + right. exists o. split; [now right|exact H].
Qed.

End IndexOptions.

(** X23: the options of the index the plugin adds: a weight is recorded only
    for an object specification without keys that carries a non-zero weight,
    under the name of its fuzzy attribute (string and nested specifications
    never get one), and the language override is passed on when it is a
    non-empty string and left out otherwise. *)
Theorem plugin_index_options
    (schema schema' : Schema) (l : list item) (language : option string) :
  plugin schema (Some {| fields := FieldsArray l; opt_language_override := language |})
    = Return schema' ->
  exists idx options,
    indexes schema' = indexes schema ++ [(idx, options)] /\
    language_override options =
      match language with
      | Some lang => if String.eqb lang "" then None else Some lang
      | None => None
      end /\
    forall k w, In (k, w) (weights options) ->
      exists o, In (ItemObject o) l /\ keysTruthy (Field.keys o) = false /\
                Field.weight o = Some w /\ w <> 0 /\ k = fuzzyName (Field.name o).
Proof.
  unfold plugin. simpl.
  destruct (checkFields l) as [[]| |]; simpl; try discriminate.
  unfold createFields.
  destruct (forEachM createFields_item l _) as [st| |] eqn:Hrun; simpl; try discriminate.
  intros [= <-]. simpl.
  destruct (createFields_run l _ _ Hrun) as (B1 & _). simpl in B1.
  eexists _, _. split; [now rewrite B1|]. split; [reflexivity|].
  simpl. intros k w Hin.
  destruct (createFields_weights l k w _ _ Hrun Hin) as [[]|H]. exact H.
Qed.

Lemma plugin_index_options_witness :
  exists schema' idx options,
    plugin emptySchema
      (Some {| fields := FieldsArray [ItemObject (Field.make "title" (Some 5) KeysAbsent
                                                             None false None)];
               opt_language_override := Some "lang"%string |}) = Return schema' /\
    indexes schema' = indexes emptySchema ++ [(idx, options)] /\
    language_override options = Some "lang"%string.
Proof.
  eexists.
  destruct (plugin_index_options emptySchema _
              [ItemObject (Field.make "title" (Some 5) KeysAbsent None false None)]
              (Some "lang"%string) eq_refl)
    as (idx & options & H1 & H2 & _).
  exists idx, options. split; [reflexivity|]. split; [exact H1|exact H2].
Defined.

(** ** Other first arguments of fuzzySearch *)

Lemma fuzzySearch_plain (v : value) (rest : list value) :
  isObject v = false ->
  fuzzySearch (v :: rest) =
  bind (makeNGrams v false (Some 2) false)
       (fun tokens =>
          Return {| callback := callbackOf (arg rest 0) (arg rest 1);
                    search := filterOf (String.concat " " tokens) (arg rest 0) |}).
Proof.
  intros Hobj. unfold fuzzySearch.
  change (arg (v :: rest) 0) with v.
  change (arg (v :: rest) 1) with (arg rest 0).
  change (arg (v :: rest) 2) with (arg rest 1).
  rewrite Hobj.
  change constants.DEFAULT_MIN_SIZE with 2.
  change constants.DEFAULT_PREFIX_ONLY with false.
  cbn [length Nat.eqb andb negb orb asMinSize truthy bind Z.eqb].
  destruct (makeNGrams v false (Some 2) false) as [tokens| |]; simpl; try reflexivity.
  f_equal. apply fuzzySearch_tail.
Qed.

(** X24: what fuzzySearch does with a first argument that is present but is
    not a non-empty plain object.  A falsy one (undefined, null, false, 0 or
    the empty string) is not refused: the call returns a request whose search
    string is empty.  A truthy one that is not a string (a number, an array,
    an empty object, a function) makes makeNGrams throw the TypeError of the
    missing [split] method. *)
Theorem fuzzySearch_other_first_argument (v : value) (rest : list value) :
  isObject v = false ->
  (truthy v = false ->
   exists r, fuzzySearch (v :: rest) = Return r /\ searchText (search r) = EmptyString) /\
  (truthy v = true -> isString v = false ->
   fuzzySearch (v :: rest) = Throw (TypeError "text.split is not a function")).
Proof.
  intros Hobj. rewrite (fuzzySearch_plain v rest Hobj). split.
  - intros Ht. unfold makeNGrams. rewrite Ht. simpl.
    eexists. split; [reflexivity|]. simpl. apply searchText_filterOf.
  - intros Ht Hs. unfold makeNGrams. rewrite Ht. simpl.
    destruct v; try reflexivity; discriminate.
Qed.

Lemma fuzzySearch_other_first_argument_witness :
  (exists r, fuzzySearch [VNull] = Return r /\ searchText (search r) = EmptyString) /\
  fuzzySearch [VNum 5] = Throw (TypeError "text.split is not a function").
Proof.
  split.
  - apply (fuzzySearch_other_first_argument VNull []); reflexivity.
  - apply (fuzzySearch_other_first_argument (VNum 5) []); reflexivity.
Defined.

(** ** The characters of tokens *)

Section TokenCharacters.

Lemma chars_app (s t : string) : chars (s +:+ t) = chars s ++ chars t.
Proof.
  induction s as [|c s IH]; [reflexivity|].
  rewrite app_String. unfold chars in *. simpl. now rewrite IH.
Qed.

Lemma chars_substring (t s : string) (c : ascii) :
  is_substring t s -> In c (chars t) -> In c (chars s).
Proof.
  intros (pre & post & ->) H. rewrite !chars_app, !in_app_iff. auto.
Qed.

End TokenCharacters.

(** X25: the tokens makeNGrams returns are normalised: no token holds an
    upper-case letter or an underscore, and with escapeSpecialCharacters set
    no token holds a character of the regular expression on line 128. *)
Theorem makeNGrams_tokens_normalised
    (text : string) (escapeSpecialCharacters prefixOnly : bool) (minSize : option Z)
    (l : list string) (t : string) (c : ascii) :
  1 <= orDefaultMinSize minSize ->
  makeNGrams (VStr text) escapeSpecialCharacters minSize prefixOnly = Return l ->
  In t l -> In c (chars t) ->
  c <> "_"%char /\ lower_ascii c = c /\
  (escapeSpecialCharacters = true -> ~ In c specialCharacters).
Proof.
  intros Hm Hl Ht Hc.
  destruct (makeNGrams_members text escapeSpecialCharacters prefixOnly minSize Hm)
    as (l' & Hl' & _ & Hin).
  rewrite Hl in Hl'. injection Hl' as <-.
  apply Hin in Ht. destruct Ht as (w & _ & _ & Hsub & _).
  rewrite (replaceSymbols_lower_case w escapeSpecialCharacters) in Hsub.
  pose proof (chars_substring _ _ _ Hsub Hc) as Hw.
  apply chars_replaceSymbols in Hw. destruct Hw as (H1 & H2 & H3).
  split; [exact H1|]. split; [exact H2|]. intros He Hsp.
  specialize (H3 He).
  assert (Hex : existsb (Ascii.eqb c) specialCharacters = true).
  { apply existsb_exists. exists c. split; [exact Hsp|apply Ascii.eqb_refl]. }
  congruence.
Qed.

Lemma makeNGrams_tokens_normalised_witness :
  "b"%char <> "_"%char /\ lower_ascii "b" = "b"%char /\
  (true = true -> ~ In "b"%char specialCharacters).
Proof.
  apply (makeNGrams_tokens_normalised "A-B c" true false None ["ab"%string; "c"%string]
           "ab" "b").
  - vm_compute. discriminate.
  - reflexivity.
  - now left.
  - right. now left.
Defined.

Lemma plugin_succeeds_iff_witness :
  exists schema',
    plugin emptySchema
      (Some {| fields := FieldsArray [ItemString "title"];
               opt_language_override := None |}) = Return schema'.
Proof.
  apply (proj2 (plugin_succeeds_iff emptySchema [ItemString "title"] None)). reflexivity.
Defined.

(** ** Absent source attributes *)





(** An attribute name that every object inherits is never absent: a
    specification called "toString" finds the inherited method and the
    indexer throws. *)
Example createNGrams_inherited_source :
  createNGrams {["title" := VStr "Hi"]} [ItemString "toString"] =
  Throw (TypeError "text.split is not a function").
Proof. reflexivity. Qed.
